(** * Trivia game: a shallow embedding of [trivia_nocomments.ipynb]

    The notebook is embedded function by function.  Python objects that are
    mutated through references ([Player] instances) live in a store indexed
    by addresses; the registry [game.players] is a list of addresses.
    Python exceptions are values of [exn]; a computation that can raise
    returns a [res].  The provider's answer and the draws of the random
    number generator are inputs of the model. *)

From stdpp Require Import gmap strings list sorting.
From Stdlib Require Import ZArith Lia.

Open Scope Z_scope.

(** ** Python runtime fragments *)

(** Subclasses of [requests.exceptions.RequestException]: a failure of
    [rq.get], the [HTTPError] of [raise_for_status], and the
    [JSONDecodeError] of [response.json()]. *)
Inductive request_error : Type :=
  | ConnectionError
  | HTTPError (status : Z)
  | JSONDecodeError.

(** The exception classes the notebook can meet. *)
Inductive exn : Type :=
  | RequestException (why : request_error)
  | ValueError (msg : string)
  | KeyError
  | IndexError
  | TypeError
  | AttributeError
  | ZeroDivisionError.

(** Result of running a piece of Python: a value, an exception on its way to
    the caller, or [Pending] when the modelled run is cut short (loop fuel or
    the recorded provider answers are used up). *)
Inductive res (A : Type) : Type :=
  | Ok (a : A)
  | Raise (e : exn)
  | Pending.
Arguments Ok {A} a.
Arguments Raise {A} e.
Arguments Pending {A}.

(** [res] is a monad; stdpp's [x ← m; k] notation sequences statements and
    lets an exception skip the rest. *)
#[global] Instance res_ret : MRet res := λ A a, Ok a.
#[global] Instance res_bind : MBind res := λ A B k m,
  match m with
  | Ok a => k a
  | Raise e => Raise e
  | Pending => Pending
  end.

(** [l[i]] and [l[i] = x] on a Python list: a negative index counts from the
    end, anything outside [-len .. len-1] raises [IndexError]. *)
Definition norm_index (n : nat) (i : Z) : option nat :=
  if decide (0 ≤ i < Z.of_nat n) then Some (Z.to_nat i)
  else if decide (- Z.of_nat n ≤ i < 0) then Some (Z.to_nat (Z.of_nat n + i))
  else None.

Definition getitem {A} (l : list A) (i : Z) : res A :=
  match norm_index (length l) i with
  | Some k => match l !! k with Some x => Ok x | None => Raise IndexError end
  | None => Raise IndexError
  end.

Definition setitem {A} (l : list A) (i : Z) (x : A) : res (list A) :=
  match norm_index (length l) i with
  | Some k => Ok (<[k:=x]> l)
  | None => Raise IndexError
  end.

(** [range(a, b)] *)
Definition py_range (a b : Z) : list Z :=
  (λ k : nat, a + Z.of_nat k) <$> seq 0 (Z.to_nat (b - a)).

(** ** [insertion_sort]

    The function only reads [.score] of the elements, so it is embedded over
    any element type with a score. *)
Section InsertionSort.
Context {A : Type} (score : A → Z).

(** The inner [while j >= 0 and players[j].score < key.score] loop; returns
    the list and the final [j]. *)
Fixpoint while_shift (fuel : nat) (players : list A) (j : Z) (key : A)
    : res (list A * Z) :=
  match fuel with
  | O => Pending
  | S fuel' =>
      if decide (0 ≤ j) then
        pj ← getitem players j;
        if decide (score pj < score key) then
          players' ← setitem players (j + 1) pj;
          while_shift fuel' players' (j - 1) key
        else Ok (players, j)
      else Ok (players, j)
  end.

(** One iteration of [for i in range(1, len(players))]. *)
Definition for_body (players : list A) (i : Z) : res (list A) :=
  key ← getitem players i;
  '(players', j) ← while_shift (length players) players (i - 1) key;
  setitem players' (j + 1) key.

Fixpoint for_loop (idxs : list Z) (players : list A) : res (list A) :=
  match idxs with
  | [] => Ok players
  | i :: idxs' => players' ← for_body players i; for_loop idxs' players'
  end.

Definition insertion_sort (players : list A) : res (list A) :=
  for_loop (py_range 1 (Z.of_nat (length players))) players.

(** *** Specification vocabulary *)

Definition desc : A → A → Prop := λ a b, score b ≤ score a.

(** [key] has been placed in [pre]: it sits right after the last element
    whose score is not below its own. *)
Definition placed (key : A) (pre out : list A) : Prop :=
  ∃ a b, pre = a ++ b ∧ out = a ++ key :: b ∧
         Forall (λ p, score p < score key) b ∧
         (a = [] ∨ ∃ a' z, a = a' ++ [z] ∧ score key ≤ score z).

(** [out] is the stable descending ranking of [l]. *)
Definition ranked (l out : list A) : Prop :=
  out ≡ₚ l ∧ StronglySorted desc out ∧
  ∀ s : Z, filter (λ p, score p = s) out = filter (λ p, score p = s) l.
End InsertionSort.

(** ** Values decoded from the provider's JSON

    [response.json()] yields [None], booleans, integers, strings, lists and
    dictionaries.  A dictionary is kept as its item list, one entry per key.
    Numbers with a fraction or an exponent are left out of the embedding. *)
#[local] Set Warnings "-register-all".
Inductive pyval : Type :=
  | PNone
  | PBool (b : bool)
  | PInt (z : Z)
  | PStr (s : string)
  | PList (l : list pyval)
  | PDict (d : list (string * pyval)).

Fixpoint dict_lookup {V} (k : string) (d : list (string * V)) : option V :=
  match d with
  | [] => None
  | (k', v) :: d' => if decide (k = k') then Some v else dict_lookup k d'
  end.

(** Python's [==] on decoded values: [True == 1] and [False == 0], lists are
    compared element by element, dictionaries key by key. *)
Fixpoint py_eq (v w : pyval) {struct v} : bool :=
  match v, w with
  | PNone, PNone => true
  | PBool a, PBool b => bool_decide (a = b)
  | PBool a, PInt z => bool_decide (Z.b2z a = z)
  | PInt z, PBool b => bool_decide (z = Z.b2z b)
  | PInt a, PInt b => bool_decide (a = b)
  | PStr a, PStr b => bool_decide (a = b)
  | PList l, PList m =>
      (fix go (l m : list pyval) {struct l} : bool :=
         match l, m with
         | [], [] => true
         | x :: l', y :: m' => py_eq x y && go l' m'
         | _, _ => false
         end) l m
  | PDict d, PDict e =>
      bool_decide (length d = length e) &&
      (fix go (d : list (string * pyval)) {struct d} : bool :=
         match d with
         | [] => true
         | (k, x) :: d' =>
             match dict_lookup k e with
             | Some y => py_eq x y
             | None => false
             end && go d'
         end) d
  | _, _ => false
  end.

(** [v.get(key)] *)
Definition py_get (v : pyval) (key : string) : res pyval :=
  match v with
  | PDict d => Ok (default PNone (dict_lookup key d))
  | _ => Raise AttributeError
  end.

(** [v[key]] with a string key *)
Definition py_item (v : pyval) (key : string) : res pyval :=
  match v with
  | PDict d =>
      match dict_lookup key d with Some x => Ok x | None => Raise KeyError end
  | _ => Raise TypeError
  end.

(** [v[i]] with an integer index *)
Definition py_at (v : pyval) (i : Z) : res pyval :=
  match v with
  | PList l => getitem l i
  | PStr s =>
      match norm_index (String.length s) i with
      | Some k =>
          match String.get k s with
          | Some c => Ok (PStr (String c EmptyString))
          | None => Raise IndexError
          end
      | None => Raise IndexError
      end
  | PDict _ => Raise KeyError
  | _ => Raise TypeError
  end.

(** [v + [x]] *)
Definition py_add_list (v : pyval) (x : pyval) : res (list pyval) :=
  match v with
  | PList l => Ok (l ++ [x])
  | _ => Raise TypeError
  end.

(** [l.index(x)] *)
Fixpoint py_index (l : list pyval) (x : pyval) : res Z :=
  match l with
  | [] => Raise (ValueError "x is not in list")
  | y :: l' =>
      if py_eq y x then Ok 0 else i ← py_index l' x; Ok (i + 1)
  end.

(** ** [random.shuffle]

    The standard library walks [i] from [len(x) - 1] down to [1] and swaps
    [x[i]] with [x[j]] for a random [j] below [i + 1].  The raw draws of the
    generator are an input. *)
Definition swap {A} (x : list A) (i j : nat) : list A :=
  match x !! i, x !! j with
  | Some xi, Some xj => <[j:=xi]> (<[i:=xj]> x)
  | _, _ => x
  end.

Fixpoint shuffle_from {A} (i : nat) (draws : list nat) (x : list A) : list A :=
  match i with
  | O => x
  | S i' =>
      let j := (hd 0%nat draws `mod` (i + 1))%nat in
      shuffle_from i' (tl draws) (swap x i j)
  end.

Definition shuffle {A} (draws : list nat) (x : list A) : list A :=
  shuffle_from (length x - 1) draws x.

(** ** [class Question] *)
Record Question : Type := {
  category : pyval;
  question_text : pyval;
  options : list pyval;
  correct_answer : pyval
}.

(** [Question.from_api_response] *)
Definition from_api_response (api_response : pyval) (draws : list nat)
    : res Question :=
  results ← py_item api_response "results";
  question_data ← py_at results 0;
  incorrect ← py_item question_data "incorrect_answers";
  correct ← py_item question_data "correct_answer";
  opts ← py_add_list incorrect correct;
  let opts := shuffle draws opts in
  cat ← py_item question_data "category";
  text ← py_item question_data "question";
  correct' ← py_item question_data "correct_answer";
  Ok {| category := cat; question_text := text;
        options := opts; correct_answer := correct' |}.

(** ** Players and the game *)
Inductive PlayerClass : Type := ChildPlayer | AdultPlayer.

Definition DEFAULT_DIFFICULTY (c : PlayerClass) : string :=
  match c with
  | ChildPlayer => "easy"
  | AdultPlayer => "medium"
  end.

Record Player : Type := {
  cls : PlayerClass;
  name : string;
  score : Z
}.

(** [Player.add_score] *)
Definition add_score (points : Z) (p : Player) : Player :=
  {| cls := cls p; name := name p; score := score p + points |}.

(** [Player.__init__], reached through the two subclasses *)
Definition new_player (c : PlayerClass) (nm : string) : Player :=
  {| cls := c; name := nm; score := 0 |}.

#[global] Instance Player_inhabited : Inhabited Player :=
  populate (new_player ChildPlayer "").

Record TriviaGame : Type := {
  players : list nat;
  round : Z
}.

(** ** The provider and what the program shows *)

Record request : Type := {
  req_difficulty : string;
  req_amount : Z;
  req_category : option Z;
  req_type : string
}.

Inductive http_result : Type :=
  | NoResponse
  | Response (status : Z) (body : option pyval).

(** One call of the provider: what [rq.get] meets, and the draws the
    shuffle consumes if a question is built. *)
Record fetch : Type := {
  reply : http_result;
  draws : list nat
}.

(** Lines written by [print] *)
Inductive printed : Type :=
  | ErrorFetching (e : exn)
  | DataError (e : exn).

(** Message boxes *)
Inductive dialog : Type :=
  | WarnSelectOption
  | InfoCorrect
  | InfoWrong (answer : pyval)
  | InfoFetchError
  | InfoFinalLeaderboard (lines : list (string * Z)).

Record TriviaGameGUI : Type := {
  current_player_index : Z;
  round_player_index : Z;
  round_label : Z;
  leaderboard_text : list (string * Z);
  question_label : option (string * pyval * pyval);
  option_vars : option Z;
  option_buttons : list (pyval * Z);
  current_question : option Question;
  destroyed : bool
}.

Record World : Type := {
  heap : gmap nat Player;
  game : TriviaGame;
  gui : TriviaGameGUI;
  stdout : list printed;
  dialogs : list dialog;
  requests : list request
}.

(** Field updates *)
Definition with_players (ps : list nat) (g : TriviaGame) : TriviaGame :=
  {| players := ps; round := round g |}.
Definition with_round (r : Z) (g : TriviaGame) : TriviaGame :=
  {| players := players g; round := r |}.

Definition with_round_player_index (i : Z) (u : TriviaGameGUI) : TriviaGameGUI :=
  {| current_player_index := current_player_index u;
     round_player_index := i;
     round_label := round_label u;
     leaderboard_text := leaderboard_text u;
     question_label := question_label u;
     option_vars := option_vars u;
     option_buttons := option_buttons u;
     current_question := current_question u;
     destroyed := destroyed u |}.

Definition with_leaderboard (r : Z) (lines : list (string * Z))
    (u : TriviaGameGUI) : TriviaGameGUI :=
  {| current_player_index := current_player_index u;
     round_player_index := round_player_index u;
     round_label := r;
     leaderboard_text := lines;
     question_label := question_label u;
     option_vars := option_vars u;
     option_buttons := option_buttons u;
     current_question := current_question u;
     destroyed := destroyed u |}.

Definition with_question (q : Question) (label : string * pyval * pyval)
    (buttons : list (pyval * Z)) (u : TriviaGameGUI) : TriviaGameGUI :=
  {| current_player_index := current_player_index u;
     round_player_index := round_player_index u;
     round_label := round_label u;
     leaderboard_text := leaderboard_text u;
     question_label := Some label;
     option_vars := Some 0;
     option_buttons := buttons;
     current_question := Some q;
     destroyed := destroyed u |}.

Definition with_option_vars (v : Z) (u : TriviaGameGUI) : TriviaGameGUI :=
  {| current_player_index := current_player_index u;
     round_player_index := round_player_index u;
     round_label := round_label u;
     leaderboard_text := leaderboard_text u;
     question_label := question_label u;
     option_vars := Some v;
     option_buttons := option_buttons u;
     current_question := current_question u;
     destroyed := destroyed u |}.

Definition with_destroyed (u : TriviaGameGUI) : TriviaGameGUI :=
  {| current_player_index := current_player_index u;
     round_player_index := round_player_index u;
     round_label := round_label u;
     leaderboard_text := leaderboard_text u;
     question_label := question_label u;
     option_vars := option_vars u;
     option_buttons := option_buttons u;
     current_question := current_question u;
     destroyed := true |}.

Definition on_heap (f : gmap nat Player → gmap nat Player) (w : World) : World :=
  {| heap := f (heap w); game := game w; gui := gui w;
     stdout := stdout w; dialogs := dialogs w; requests := requests w |}.
Definition on_game (f : TriviaGame → TriviaGame) (w : World) : World :=
  {| heap := heap w; game := f (game w); gui := gui w;
     stdout := stdout w; dialogs := dialogs w; requests := requests w |}.
Definition on_gui (f : TriviaGameGUI → TriviaGameGUI) (w : World) : World :=
  {| heap := heap w; game := game w; gui := f (gui w);
     stdout := stdout w; dialogs := dialogs w; requests := requests w |}.
Definition put_stdout (line : printed) (w : World) : World :=
  {| heap := heap w; game := game w; gui := gui w;
     stdout := stdout w ++ [line]; dialogs := dialogs w;
     requests := requests w |}.
Definition put_dialog (d : dialog) (w : World) : World :=
  {| heap := heap w; game := game w; gui := gui w;
     stdout := stdout w; dialogs := dialogs w ++ [d];
     requests := requests w |}.
Definition put_request (r : request) (w : World) : World :=
  {| heap := heap w; game := game w; gui := gui w;
     stdout := stdout w; dialogs := dialogs w;
     requests := requests w ++ [r] |}.

(** ** Statements that read or change the world *)
Definition M (A : Type) : Type := World → res A * World.

#[global] Instance M_ret : MRet M := λ A a w, (Ok a, w).
#[global] Instance M_bind : MBind M := λ A B k m w,
  match m w with
  | (Ok a, w') => k a w'
  | (Raise e, w') => (Raise e, w')
  | (Pending, w') => (Pending, w')
  end.

Definition gets {A} (f : World → A) : M A := λ w, (Ok (f w), w).
Definition modify (f : World → World) : M unit := λ w, (Ok (), f w).
Definition lift {A} (r : res A) : M A := λ w, (r, w).
Definition raise {A} (e : exn) : M A := lift (Raise e).

(** [try: body except ...: handler]; a handler of [None] lets the exception
    pass. *)
Definition try_except {A} (body : M A) (handler : exn → option (M A)) : M A :=
  λ w,
    match body w with
    | (Raise e, w') =>
        match handler e with
        | Some h => h w'
        | None => (Raise e, w')
        end
    | r => r
    end.

(** ** [get_questions] *)

(** [rq.get(URL, params=params)] *)
Definition rq_get (params : request) (f : fetch) : M (Z * option pyval) :=
  modify (put_request params);;
  match reply f with
  | NoResponse => raise (RequestException ConnectionError)
  | Response status body => mret (status, body)
  end.

(** [response.raise_for_status()] *)
Definition raise_for_status (response : Z * option pyval) : M unit :=
  if decide (400 ≤ response.1 < 600)
  then raise (RequestException (HTTPError response.1))
  else mret ().

(** [response.json()] *)
Definition response_json (response : Z * option pyval) : M pyval :=
  match response.2 with
  | Some v => mret v
  | None => raise (RequestException JSONDecodeError)
  end.

Definition get_questions_with (difficulty : string) (amount : Z)
    (category : option Z) (type : string) (f : fetch) : M (option Question) :=
  try_except
    (let params := {| req_difficulty := difficulty; req_amount := amount;
                      req_category := category; req_type := type |} in
     response ← rq_get params f;
     raise_for_status response;;
     question_data ← response_json response;
     code ← lift (py_get question_data "response_code");
     if negb (py_eq code (PInt 0))
     then raise (ValueError "No questions available for the given parameters.")
     else q ← lift (from_api_response question_data (draws f));
          mret (Some q))
    (λ e,
       match e with
       | RequestException _ =>
           Some (modify (put_stdout (ErrorFetching e));; mret None)
       | ValueError _ =>
           Some (modify (put_stdout (DataError e));; mret None)
       | _ => None
       end).

(** [get_questions(difficulty)] with the defaults [amount=1],
    [category=None], [type="multiple"] *)
Definition get_questions (difficulty : string) (f : fetch)
    : M (option Question) :=
  get_questions_with difficulty 1 None "multiple" f.

(** ** [class TriviaGame] *)

(** [TriviaGame.__init__] *)
Definition new_game : TriviaGame := {| players := []; round := 1 |}.

(** A new object gets an address no live object has. *)
Definition alloc (p : Player) : M nat :=
  l ← gets (λ w, fresh (dom (heap w)));
  modify (on_heap (insert l p));;
  mret l.

(** [TriviaGame.add_player] *)
Definition add_player (nm : string) (player_type : string) : M unit :=
  if decide (player_type = "child") then
    l ← alloc (new_player ChildPlayer nm);
    modify (on_game (λ g, with_players (players g ++ [l]) g))
  else if decide (player_type = "adult") then
    l ← alloc (new_player AdultPlayer nm);
    modify (on_game (λ g, with_players (players g ++ [l]) g))
  else mret ().

(** ** [class TriviaGameGUI] *)

Definition scoreboard (w : World) : list (string * Z) :=
  (λ l, (name (heap w !!! l), score (heap w !!! l))) <$> players (game w).

(** [update_leaderboard] *)
Definition update_leaderboard : M unit :=
  modify (λ w, on_gui (with_leaderboard (round (game w)) (scoreboard w)) w).

(** The first three lines of [next_player]: move to the next index and
    start a new round when it wraps. *)
Definition advance : M unit :=
  n ← gets (λ w, Z.of_nat (length (players (game w))));
  i ← gets (λ w, round_player_index (gui w));
  (if decide (n = 0) then raise ZeroDivisionError else mret ());;
  modify (on_gui (with_round_player_index ((i + 1) `mod` n)));;
  i' ← gets (λ w, round_player_index (gui w));
  if decide (i' = 0)
  then modify (on_game (λ g, with_round (round g + 1) g))
  else mret ().

(** [ask_question].  [net] holds the provider's answers still to come; the
    result is what is left of it.  When a fetch fails the method calls
    [next_player], which comes back here.   Python's limit on the depth of nested calls is
    not part of the embedding. *)
Fixpoint ask_question (net : list fetch) : M (list fetch) :=
  match net with
  | [] => lift Pending
  | f :: net' =>
      ps ← gets (λ w, players (game w));
      i ← gets (λ w, round_player_index (gui w));
      l ← lift (getitem ps i);
      player ← gets (λ w, heap w !!! l);
      let difficulty := DEFAULT_DIFFICULTY (cls player) in
      question ← get_questions difficulty f;
      match question with
      | Some q =>
          let buttons := zip (options q)
                             (Z.of_nat <$> seq 1 (length (options q))) in
          modify (on_gui (with_question q
                    (name player, category q, question_text q) buttons));;
          mret net'
      | None =>
          modify (put_dialog InfoFetchError);;
          advance;;
          ask_question net'
      end
  end.

(** [next_player] *)
Definition next_player (net : list fetch) : M (list fetch) :=
  advance;;
  ask_question net.

(** [submit_answer] *)
Definition submit_answer (net : list fetch) : M (list fetch) :=
  ps ← gets (λ w, players (game w));
  i ← gets (λ w, round_player_index (gui w));
  l ← lift (getitem ps i);
  var ← gets (λ w, option_vars (gui w));
  selected_option ← lift (from_option Ok (Raise AttributeError) var);
  if decide (selected_option = 0) then
    modify (put_dialog WarnSelectOption);;
    mret net
  else
    cq ← gets (λ w, current_question (gui w));
    q ← lift (from_option Ok (Raise AttributeError) cq);
    chosen ← lift (getitem (options q) (selected_option - 1));
    (if py_eq chosen (correct_answer q) then
       modify (put_dialog InfoCorrect);;
       modify (on_heap (λ h, <[l := add_score 1 (h !!! l)]> h))
     else
       correct_idx ← lift (py_index (options q) (correct_answer q));
       answer ← lift (getitem (options q) correct_idx);
       modify (put_dialog (InfoWrong answer)));;
    net' ← next_player net;
    update_leaderboard;;
    mret net'.

(** [end_game]: the registry itself is sorted in place. *)
Definition end_game : M unit :=
  ps ← gets (λ w, players (game w));
  h ← gets heap;
  sorted_players ← lift (insertion_sort (λ l, score (h !!! l)) ps);
  modify (on_game (with_players sorted_players));;
  final_leaderboard ← gets scoreboard;
  modify (put_dialog (InfoFinalLeaderboard final_leaderboard));;
  modify (on_gui with_destroyed).

(** A click on the radio button with value [k] *)
Definition select_option (k : Z) : M unit :=
  modify (on_gui (with_option_vars k)).

(** [TriviaGameGUI.__init__], up to the event loop *)
Definition new_gui : TriviaGameGUI :=
  {| current_player_index := 0; round_player_index := 0;
     round_label := 0; leaderboard_text := [];
     question_label := None; option_vars := None; option_buttons := [];
     current_question := None; destroyed := false |}.

Definition init_gui (net : list fetch) : M (list fetch) :=
  modify (on_gui (λ _, new_gui));;
  modify (λ w, on_gui (with_leaderboard (round (game w)) []) w);;
  update_leaderboard;;
  ask_question net.

(** The world before the first player is added *)
Definition new_world : World :=
  {| heap := ∅; game := new_game; gui := new_gui;
     stdout := []; dialogs := []; requests := [] |}.

(** ** The setup dialogue (the notebook's last cell)

    [input] reads the next line the user types; a run is [Pending] when it
    waits for a line that has not been typed.  What is printed or shown as
    a prompt is kept in order.  The built-ins [int] and [.strip().lower()]
    are taken as they are: [py_int s] is [None] where [int(s)] raises
    [ValueError]. *)
Inductive console_line : Type :=
  | PromptNumPlayers
  | SayNotPositive
  | SayNotInteger
  | PromptName (number : Z)
  | PromptType (nm : string)
  | SayBadType.

(** Lines still to be typed, and lines shown so far *)
Definition Console : Type := list string * list console_line.

Section Setup.
Context (py_int : string → option Z) (strip_lower : string → string).

(** The [while True] loop that asks for the number of players *)
Fixpoint read_num_players (stdin : list string) (shown : list console_line)
    : res Z * Console :=
  match stdin with
  | [] => (Pending, ([], shown ++ [PromptNumPlayers]))
  | s :: stdin' =>
      match py_int s with
      | Some num_players =>
          if decide (0 < num_players)
          then (Ok num_players, (stdin', shown ++ [PromptNumPlayers]))
          else read_num_players stdin'
                 (shown ++ [PromptNumPlayers; SayNotPositive])
      | None =>
          read_num_players stdin' (shown ++ [PromptNumPlayers; SayNotInteger])
      end
  end.

(** The [while True] loop that asks whether [nm] is a child or an adult *)
Fixpoint read_player_type (nm : string) (stdin : list string)
    (shown : list console_line) : res string * Console :=
  match stdin with
  | [] => (Pending, ([], shown ++ [PromptType nm]))
  | s :: stdin' =>
      let player_type := strip_lower s in
      if decide (player_type = "child" ∨ player_type = "adult")
      then (Ok player_type, (stdin', shown ++ [PromptType nm]))
      else read_player_type nm stdin' (shown ++ [PromptType nm; SayBadType])
  end.

(** The body of [for i in range(num_players)] and the loop itself *)
Fixpoint collect_players (idxs : list Z) (c : Console) (w : World)
    : res unit * Console * World :=
  match idxs with
  | [] => (Ok (), c, w)
  | i :: idxs' =>
      match c.1 with
      | [] => (Pending, ([], c.2 ++ [PromptName (i + 1)]), w)
      | nm :: stdin' =>
          match read_player_type nm stdin' (c.2 ++ [PromptName (i + 1)]) with
          | (Ok player_type, c') =>
              match add_player nm player_type w with
              | (Ok _, w') => collect_players idxs' c' w'
              | (Raise e, w') => (Raise e, c', w')
              | (Pending, w') => (Pending, c', w')
              end
          | (Raise e, c') => (Raise e, c', w)
          | (Pending, c') => (Pending, c', w)
          end
      end
  end.

(** Everything before [TriviaGameGUI(game)]; returns [num_players]. *)
Definition setup (c : Console) : res Z * Console * World :=
  match read_num_players c.1 c.2 with
  | (Ok num_players, c') =>
      match collect_players (py_range 0 num_players) c' new_world with
      | (Ok _, c'', w) => (Ok num_players, c'', w)
      | (Raise e, c'', w) => (Raise e, c'', w)
      | (Pending, c'', w) => (Pending, c'', w)
      end
  | (Raise e, c') => (Raise e, c', new_world)
  | (Pending, c') => (Pending, c', new_world)
  end.

(** The whole cell, up to the event loop *)
Definition main (c : Console) (net : list fetch)
    : res (list fetch) * Console * World :=
  match setup c with
  | (Ok _, c', w) => let r := init_gui net w in (r.1, c', r.2)
  | (Raise e, c', w) => (Raise e, c', w)
  | (Pending, c', w) => (Pending, c', w)
  end.
End Setup.

(** A stand-in for [int] on the few inputs of the examples, and the
    identity for [.strip().lower()] on inputs already in lower case *)
Definition sample_int (s : string) : option Z :=
  if decide (s = "0") then Some 0
  else if decide (s = "2") then Some 2
  else None.

Definition sample_console : Console :=
  (["two"; "0"; "2"; "Alice"; "kid"; "child"; "Bob"; "adult"], []).

(** ** Vocabulary of the statements *)

Definition default_params (difficulty : string) : request :=
  {| req_difficulty := difficulty; req_amount := 1;
     req_category := None; req_type := "multiple" |}.

(** The request did not get through, or the status is 4xx or 5xx. *)
Definition transport_failure (r : http_result) : Prop :=
  match r with
  | NoResponse => True
  | Response status _ => 400 ≤ status < 600
  end.

(** The transport succeeded and the body's [response_code] differs from 0. *)
Definition nonzero_response_code (r : http_result) : Prop :=
  match r with
  | Response status (Some (PDict d)) =>
      ¬ (400 ≤ status < 600) ∧
      py_eq (default PNone (dict_lookup "response_code" d)) (PInt 0) = false
  | _ => False
  end.

(** The failure kinds named by the specification *)
Inductive FailureKind : Type := NetworkError | NoQuestionsAvailable.

(** The fetch [f] hands the question [q] to its caller. *)
Definition fetch_yields (f : fetch) (q : Question) : Prop :=
  ∀ d w, get_questions d f w = (Ok (Some q), put_request (default_params d) w).

(** The fetch [f] comes back with [None] after printing one line. *)
Definition fetch_fails (f : fetch) : Prop :=
  ∀ d w, ∃ line,
    get_questions d f w
      = (Ok None, put_stdout line (put_request (default_params d) w)).

(** The world after the first three lines of [next_player] *)
Definition advanced (w : World) : World :=
  let n := Z.of_nat (length (players (game w))) in
  let w1 := on_gui (with_round_player_index
                      ((round_player_index (gui w) + 1) `mod` n)) w in
  if decide (round_player_index (gui w1) = 0)
  then on_game (λ g, with_round (round g + 1) g) w1
  else w1.

(** The world after [ask_question] has shown [q] to the player at [l] *)
Definition asked (q : Question) (l : nat) (w : World) : World :=
  on_gui (with_question q
            (name (heap w !!! l), category q, question_text q)
            (zip (options q) (Z.of_nat <$> seq 1 (length (options q)))))
    (put_request (default_params (DEFAULT_DIFFICULTY (cls (heap w !!! l)))) w).

(** What [submit_answer] does once the answer is scored *)
Definition after_scoring (net : list fetch) : M (list fetch) :=
  net' ← next_player net; update_leaderboard;; mret net'.

(** [k] calls of [next_player] in a row *)
Fixpoint turns (k : nat) (net : list fetch) : M (list fetch) :=
  match k with
  | O => mret net
  | S k' => net' ← next_player net; turns k' net'
  end.

(** The record of a question inside a provider body *)
Definition record_of (api_response : pyval) : res pyval :=
  results ← py_item api_response "results";
  py_at results 0.

(** ** Sample data *)

Definition sample_record (incorrect : list string) (correct : string) : pyval :=
  PDict [("category", PStr "Art"); ("question", PStr "Which one?");
         ("correct_answer", PStr correct);
         ("incorrect_answers", PList (PStr <$> incorrect))].

Definition sample_body (code : Z) (results : list pyval) : pyval :=
  PDict [("response_code", PInt code); ("results", PList results)].

Definition fetch_good : fetch :=
  {| reply := Response 200
       (Some (sample_body 0 [sample_record ["A"; "B"; "D"] "C"]));
     draws := [5; 1; 0]%nat |}.

Definition fetch_down : fetch := {| reply := NoResponse; draws := [] |}.

Definition fetch_none_available : fetch :=
  {| reply := Response 200 (Some (sample_body 1 [])); draws := [] |}.

Definition fetch_empty_results : fetch :=
  {| reply := Response 200 (Some (sample_body 0 [])); draws := [] |}.

Definition fetch_missing_results : fetch :=
  {| reply := Response 200 (Some (PDict [("response_code", PInt 0)]));
     draws := [] |}.

Definition sample_question : Question :=
  {| category := PStr "Art"; question_text := PStr "Which one?";
     options := [PStr "D"; PStr "A"; PStr "C"; PStr "B"];
     correct_answer := PStr "C" |}.

Definition alice3 : Player := {| cls := ChildPlayer; name := "Alice"; score := 3 |}.
Definition bob5 : Player := {| cls := AdultPlayer; name := "Bob"; score := 5 |}.
Definition carol3 : Player := {| cls := AdultPlayer; name := "Carol"; score := 3 |}.

(** Alice, Bob and Carol registered in this order, first question asked *)
Definition three_players : World :=
  ((add_player "Alice" "child";; add_player "Bob" "adult";;
    add_player "Carol" "adult";; init_gui [fetch_good]) new_world).2.

(** The same world after a click on the radio button with value [k] *)
Definition three_players_selecting (k : Z) : World :=
  (select_option k three_players).2.

(** The class [add_player] instantiates for a [player_type], if any *)
Definition class_of_type (player_type : string) : option PlayerClass :=
  if decide (player_type = "child") then Some ChildPlayer
  else if decide (player_type = "adult") then Some AdultPlayer
  else None.

(** Every entry of the registry is a live object, and no object is entered
    twice. *)
Definition registered (w : World) : Prop :=
  NoDup (players (game w)) ∧
  ∀ l, l ∈ players (game w) → is_Some (heap w !! l).

(** The index of the current player points into the registry. *)
Definition index_in_range (w : World) : Prop :=
  0 ≤ round_player_index (gui w) < Z.of_nat (length (players (game w))).

(** Players as [setup] leaves them: nobody has scored and the first round
    has not been left. *)
Definition fresh_game (w : World) : Prop :=
  registered w ∧ round (game w) = 1 ∧
  ∀ l, l ∈ players (game w) → score (heap w !!! l) = 0.

(** [k] turn advances in a row: the index update of [next_player] alone,
    without the question that follows it *)
Fixpoint advances (k : nat) : M unit :=
  match k with
  | O => mret ()
  | S k' => advance;; advances k'
  end.

(** A click on the [i]-th radio button: the selection takes the value that
    button was created with. *)
Definition click_button (i : nat) : M unit :=
  b ← gets (λ w, option_buttons (gui w) !! i);
  match b with
  | Some (_, v) => select_option v
  | None => mret ()
  end.

(** The selection is one the window can hold: the buttons are those made
    for the current question, and the selected value is 0 (a new [IntVar])
    or the value of one of them. *)
Definition selection_in_reach (w : World) : Prop :=
  ∃ q k,
    current_question (gui w) = Some q ∧
    option_vars (gui w) = Some k ∧
    option_buttons (gui w)
      = zip (options q) (Z.of_nat <$> seq 1 (length (options q))) ∧
    0 ≤ k ≤ Z.of_nat (length (options q)).

(** A line the number-of-players loop turns down, and what the loop shows
    for a run of such lines *)
Definition turned_down (py_int : string → option Z) (s : string) : Prop :=
  ∀ m, py_int s = Some m → m ≤ 0.

Definition complaints (py_int : string → option Z) (bad : list string)
    : list console_line :=
  bad ≫= λ s,
    [PromptNumPlayers;
     if py_int s is Some _ then SayNotPositive else SayNotInteger].

(** ** Proofs about the list primitives *)

Lemma norm_index_mid (n m : nat) :
  (n < m)%nat → norm_index m (Z.of_nat n) = Some n.
Proof.
  intros Hm. unfold norm_index.
  rewrite decide_True by lia. by rewrite Nat2Z.id.
Qed.

Lemma getitem_middle {A} (pre : list A) x post :
  getitem (pre ++ x :: post) (Z.of_nat (length pre)) = Ok x.
Proof.
  unfold getitem. rewrite norm_index_mid.
  - by rewrite list_lookup_middle.
  - rewrite length_app. simpl. lia.
Qed.

Lemma setitem_middle {A} (pre : list A) x y post :
  setitem (pre ++ x :: post) (Z.of_nat (length pre)) y = Ok (pre ++ y :: post).
Proof.
  unfold setitem. rewrite norm_index_mid.
  - f_equal. rewrite insert_app_r_alt by lia.
    by rewrite Nat.sub_diag.
  - rewrite length_app. simpl. lia.
Qed.

Lemma py_range_seq (a : nat) (n : nat) :
  py_range (Z.of_nat a) (Z.of_nat (a + n)) = (Z.of_nat <$> seq a n).
Proof.
  unfold py_range.
  replace (Z.to_nat (Z.of_nat (a + n) - Z.of_nat a)) with n by lia.
  replace (seq a n) with (seq (a + 0) n) by (f_equal; lia).
  rewrite <- fmap_add_seq, <- list_fmap_compose.
  apply list_fmap_ext. intros _ k _. simpl. lia.
Qed.

(** ** Proofs about [insertion_sort] *)
Section InsertionSortProofs.
Context {A : Type} (score : A → Z).

Lemma while_shift_S fuel (players : list A) j key :
  while_shift score (S fuel) players j key =
    if decide (0 ≤ j) then
      pj ← getitem players j;
      if decide (score pj < score key) then
        players' ← setitem players (j + 1) pj;
        while_shift score fuel players' (j - 1) key
      else Ok (players, j)
    else Ok (players, j).
Proof. reflexivity. Qed.

(** The while loop walks left over the elements scoring below [key],
    copying each one slot to the right; the slot at [j + 1] is free. *)
Lemma while_shift_spec (key : A) (pre1 : list A) :
  ∀ (fuel : nat) (x : A) (pre2 post : list A),
    (length pre1 < fuel)%nat →
    Forall (λ p, score p < score key) pre2 →
    ∃ a b y,
      pre1 = a ++ b ∧
      Forall (λ p, score p < score key) (b ++ pre2) ∧
      (a = [] ∨ ∃ a' z, a = a' ++ [z] ∧ score key ≤ score z) ∧
      while_shift score fuel (pre1 ++ x :: pre2 ++ post)
                  (Z.of_nat (length pre1) - 1) key
      = Ok (a ++ y :: b ++ pre2 ++ post, Z.of_nat (length a) - 1).
Proof.
  induction pre1 as [|z pre1 IH] using rev_ind; intros fuel x pre2 post Hf Hlow.
  - exists [], [], x. split_and!; [done|done|by left|].
    destruct fuel as [|fuel]; [simpl in Hf; lia|].
    rewrite while_shift_S. by rewrite decide_False by (simpl; lia).
  - destruct fuel as [|fuel]; [simpl in Hf; lia|].
    rewrite length_app in Hf. simpl in Hf.
    rewrite while_shift_S.
    replace (Z.of_nat (length (pre1 ++ [z])) - 1) with (Z.of_nat (length pre1))
      by (rewrite length_app; simpl; lia).
    rewrite decide_True by lia.
    rewrite <- (assoc_L (++) pre1 [z]).
    change ([z] ++ x :: pre2 ++ post) with (z :: x :: pre2 ++ post).
    rewrite getitem_middle.
    change (mbind ?f (Ok z)) with (f z). cbv beta.
    destruct (decide (score z < score key)) as [Hz|Hz].
    + replace (Z.of_nat (length pre1) + 1) with (Z.of_nat (length (pre1 ++ [z])))
        by (rewrite length_app; simpl; lia).
      replace (pre1 ++ z :: x :: pre2 ++ post)
        with ((pre1 ++ [z]) ++ x :: pre2 ++ post)
        by (by rewrite <- (assoc_L (++) pre1 [z])).
      rewrite setitem_middle.
      change (mbind ?f (Ok ?v)) with (f v). cbv beta.
      rewrite <- (assoc_L (++) pre1 [z]).
      change ([z] ++ z :: pre2 ++ post) with (z :: (z :: pre2) ++ post).
      destruct (IH fuel z (z :: pre2) post) as (a & b & y & -> & Hb & Ha & Hrun);
        [lia|by constructor|].
      exists a, (b ++ [z]), y. split_and!.
      * by rewrite (assoc_L (++)).
      * by rewrite <- (assoc_L (++)).
      * done.
      * replace (Z.of_nat (length (a ++ b)) + 1 - 1 - 1)
          with (Z.of_nat (length (a ++ b)) - 1) by lia.
        rewrite Hrun. do 3 f_equal.
        by rewrite <- !(assoc_L (++)).
    + exists (pre1 ++ [z]), [], x. split_and!.
      * by rewrite (right_id_L [] (++)).
      * done.
      * right. exists pre1, z. split; [done|lia].
      * rewrite <- (assoc_L (++) pre1 [z]).
        rewrite length_app. simpl. do 2 f_equal. lia.
Qed.

(** One pass of the outer loop places [players[i]] into the prefix before
    it and leaves the rest of the list alone. *)
Lemma for_body_spec (pre : list A) (key : A) (post : list A) :
  ∃ out, placed score key pre out ∧
    for_body score (pre ++ key :: post) (Z.of_nat (length pre))
    = Ok (out ++ post).
Proof.
  unfold for_body. rewrite getitem_middle.
  change (mbind ?f (Ok ?v)) with (f v). cbv beta.
  destruct (while_shift_spec key pre (length (pre ++ key :: post)) key [] post)
    as (a & b & y & -> & Hb & Ha & Hrun).
  { rewrite length_app. simpl. lia. }
  { constructor. }
  simpl in Hrun. rewrite Hrun.
  change (mbind ?f (Ok ?v)) with (f v). cbv beta iota.
  replace (Z.of_nat (length a) - 1 + 1) with (Z.of_nat (length a)) by lia.
  rewrite setitem_middle.
  exists (a ++ key :: b). split.
  - exists a, b. rewrite (right_id_L [] (++)) in Hb. done.
  - by rewrite <- (assoc_L (++) a (key :: b) post).
Qed.

Lemma placed_Permutation key (pre out : list A) :
  placed score key pre out → out ≡ₚ pre ++ [key].
Proof.
  intros (a & b & -> & -> & _ & _).
  rewrite <- Permutation_middle. apply Permutation_cons_append.
Qed.

Lemma placed_filter key (pre out : list A) (s : Z) :
  placed score key pre out →
  filter (λ p, score p = s) out = filter (λ p, score p = s) (pre ++ [key]).
Proof.
  intros (a & b & -> & -> & Hb & _).
  rewrite !filter_app, filter_cons.
  destruct (decide (score key = s)) as [Hs|Hs].
  - assert (filter (λ p, score p = s) b = []) as ->.
    { clear -Hb Hs. induction Hb as [|x b Hx _ IH]; [done|].
      rewrite filter_cons_False by lia. done. }
    rewrite filter_cons_True by done. by rewrite filter_nil, !(right_id_L [] (++)).
  - rewrite filter_cons_False by done.
    by rewrite filter_nil, !(right_id_L [] (++)).
Qed.

Lemma placed_sorted key (pre out : list A) :
  placed score key pre out →
  StronglySorted (desc score) pre → StronglySorted (desc score) out.
Proof.
  intros (a & b & -> & -> & Hb & Ha) Hs.
  apply StronglySorted_app in Hs as (Hab & Hsa & Hsb).
  assert (Forall (λ p, score key ≤ score p) a) as Hge.
  { destruct Ha as [->|(a' & z & -> & Hz)]; [constructor|].
    apply StronglySorted_app in Hsa as (Ha'z & _ & _).
    apply Forall_app. split; [|by repeat constructor].
    apply Forall_forall. intros p Hp.
    specialize (Ha'z p z Hp). unfold desc in Ha'z.
    assert (z ∈ [z]) as Hin by set_solver. specialize (Ha'z Hin). lia. }
  apply StronglySorted_app. split_and!; [|done|].
  - intros p q Hp Hq. unfold desc.
    apply elem_of_cons in Hq as [->|Hq].
    + rewrite Forall_forall in Hge. by apply Hge.
    + by apply Hab.
  - apply StronglySorted_cons. split; [|done].
    eapply Forall_impl; [exact Hb|]. intros p Hp. unfold desc. simpl in Hp. lia.
Qed.

Lemma ranked_step (l pre out : list A) key :
  ranked score l pre → placed score key pre out → ranked score (l ++ [key]) out.
Proof.
  intros (Hperm & Hsorted & Hstable) Hpl. split_and!.
  - rewrite (placed_Permutation _ _ _ Hpl). by rewrite Hperm.
  - by eapply placed_sorted.
  - intros s. rewrite (placed_filter _ _ _ s Hpl).
    by rewrite !filter_app, Hstable.
Qed.

(** Invariant of the outer loop: the first [i] slots hold the ranking of the
    first [i] inputs, the others are untouched. *)
Lemma for_loop_spec (rest : list A) :
  ∀ l pre : list A, ranked score l pre →
    ∃ out, for_loop score (Z.of_nat <$> seq (length pre) (length rest))
                    (pre ++ rest) = Ok out ∧
           ranked score (l ++ rest) out.
Proof.
  induction rest as [|key rest IH]; intros l pre Hr.
  - exists pre. rewrite !(right_id_L [] (++)). done.
  - cbn [length seq fmap list_fmap for_loop].
    destruct (for_body_spec pre key rest) as (out1 & Hpl & ->).
    change (mbind ?f (Ok ?v)) with (f v). cbv beta.
    destruct (IH (l ++ [key]) out1) as (out & Hrun & Hranked).
    { by eapply ranked_step. }
    exists out. split.
    + rewrite <- Hrun.
      apply placed_Permutation, Permutation_length in Hpl.
      rewrite length_app in Hpl. simpl in Hpl.
      by replace (length out1) with (S (length pre)) by lia.
    + by rewrite <- (assoc_L (++) l [key] rest) in Hranked.
Qed.

Lemma insertion_sort_ranked (players : list A) :
  ∃ out, insertion_sort score players = Ok out ∧ ranked score players out.
Proof.
  unfold insertion_sort. destruct players as [|p rest].
  - exists []. split; [done|]. split_and!; [done|constructor|done].
  - destruct (for_loop_spec rest [p] [p]) as (out & Hrun & Hr).
    { split_and!; [done|repeat constructor|done]. }
    exists out. split; [|done].
    rewrite <- Hrun. simpl length.
    by rewrite <- (py_range_seq 1 (length rest)).
Qed.

Lemma StronglySorted_lookup (R : A → A → Prop) (l : list A) i j a b :
  StronglySorted R l → (i < j)%nat →
  l !! i = Some a → l !! j = Some b → R a b.
Proof.
  intros Hs. revert i j. induction Hs as [|x l Hs IH Hx]; intros i j Hij Hi Hj.
  - by rewrite lookup_nil in Hi.
  - destruct j as [|j]; [lia|]. simpl in Hj.
    destruct i as [|i]; simpl in Hi.
    + simplify_eq. rewrite Forall_forall in Hx. apply Hx.
      by eapply list_elem_of_lookup_2.
    + eapply (IH i j); [lia|done..].
Qed.
End InsertionSortProofs.

(** C1: [insertion_sort] returns, and its output is in descending order of
    score and stable: a player with a strictly greater score than another
    comes before them, and for every score the players having it appear in
    the order they had in the input.  On Alice(3), Bob(5), Carol(3) it gives
    Bob, Alice, Carol. *)
Theorem insertion_sort_descending_stable {A} (sc : A → Z) (ps : list A) :
  (∃ out, insertion_sort sc ps = Ok out ∧
     (∀ (i j : nat) (a b : A),
        out !! i = Some a → out !! j = Some b → sc b < sc a → (i < j)%nat) ∧
     (∀ s : Z, filter (λ p, sc p = s) out = filter (λ p, sc p = s) ps)) ∧
  insertion_sort score [alice3; bob5; carol3] = Ok [bob5; alice3; carol3].
Proof.
  split; [|reflexivity].
  destruct (insertion_sort_ranked sc ps) as (out & Hrun & _ & Hsorted & Hstable).
  exists out. split_and!; [done| |done].
  intros i j a b Hi Hj Hlt.
  destruct (decide (i < j)%nat) as [|Hge]; [done|]. exfalso.
  destruct (decide (i = j)) as [->|Hne].
  - rewrite Hi in Hj. injection Hj as ->. lia.
  - assert (desc sc b a) as Hd.
    { eapply (StronglySorted_lookup (desc sc) out j i); [done|lia|done..]. }
    unfold desc in Hd. lia.
Qed.

(** C8: the output of [insertion_sort] is a permutation of its input. *)
Theorem insertion_sort_Permutation {A} (sc : A → Z) (ps : list A) :
  ∃ out, insertion_sort sc ps = Ok out ∧ out ≡ₚ ps.
Proof.
  destruct (insertion_sort_ranked sc ps) as (out & Hrun & Hperm & _).
  by exists out.
Qed.

(** [end_game] returns; the registry then holds the stable descending
    ranking of the players it held before, and no player object changed. *)
Lemma end_game_ranks (w : World) :
  ∃ w', end_game w = (Ok (), w') ∧ heap w' = heap w ∧
        ranked (λ l, score (heap w !!! l)) (players (game w)) (players (game w')).
Proof.
  destruct (insertion_sort_ranked (λ l, score (heap w !!! l)) (players (game w)))
    as (out & Hrun & Hr).
  eexists. unfold end_game, mbind, M_bind, gets, lift, modify.
  rewrite Hrun. split; [reflexivity|]. by split.
Qed.

(** ** Running statements *)

Lemma getitem_Some {A} (l : list A) (i : Z) :
  0 ≤ i < Z.of_nat (length l) → ∃ x, getitem l i = Ok x ∧ l !! Z.to_nat i = Some x.
Proof.
  intros Hi. unfold getitem, norm_index. rewrite decide_True by done.
  destruct (lookup_lt_is_Some_2 l (Z.to_nat i)) as [x Hx]; [lia|].
  exists x. by rewrite Hx.
Qed.

Lemma getitem_out_of_range {A} (l : list A) (i : Z) :
  Z.of_nat (length l) ≤ i ∨ i < - Z.of_nat (length l) →
  getitem l i = Raise IndexError.
Proof.
  intros Hi. unfold getitem, norm_index.
  rewrite decide_False by lia. by rewrite decide_False by lia.
Qed.

Lemma getitem_nil {A} (i : Z) : getitem (@nil A) i = Raise IndexError.
Proof.
  unfold getitem, norm_index. simpl.
  rewrite decide_False by lia. by rewrite decide_False by lia.
Qed.

(** *** [add_player] *)

(** C10: for every name and every [player_type] other than ["child"] and
    ["adult"], [add_player] returns normally and leaves the whole state as
    it was: the players list and the round counter in particular. *)
Theorem add_player_other_type (nm player_type : string) (w : World) :
  player_type ≠ "child" → player_type ≠ "adult" →
  add_player nm player_type w = (Ok (), w).
Proof.
  intros Hc Ha. unfold add_player.
  rewrite decide_False by done. by rewrite decide_False by done.
Qed.

Lemma add_player_other_type_witness :
  "robot" ≠ "child" ∧ "robot" ≠ "adult" ∧
  add_player "Zed" "robot" three_players = (Ok (), three_players).
Proof.
  split_and!; [done|done|].
  apply (add_player_other_type "Zed" "robot" three_players); done.
Defined.

(** *** [get_questions] *)

(** Unfolds the statement combinators on a symbolic world. *)
Ltac run :=
  unfold try_except, raise_for_status, response_json, rq_get, raise, lift,
    modify, gets, mbind, mret, M_bind, M_ret;
  cbn [fst snd].

Lemma get_questions_no_response d f w :
  reply f = NoResponse →
  get_questions d f w =
    (Ok None, put_stdout (ErrorFetching (RequestException ConnectionError))
                (put_request (default_params d) w)).
Proof.
  intros Hr. unfold get_questions, get_questions_with. run. by rewrite Hr.
Qed.

Lemma get_questions_http_error d f w status body :
  reply f = Response status body → 400 ≤ status < 600 →
  get_questions d f w =
    (Ok None, put_stdout (ErrorFetching (RequestException (HTTPError status)))
                (put_request (default_params d) w)).
Proof.
  intros Hr Hs. unfold get_questions, get_questions_with. run. rewrite Hr.
  cbn [fst snd]. by rewrite decide_True by done.
Qed.

Lemma get_questions_nonzero_code d f w status items :
  reply f = Response status (Some (PDict items)) → ¬ (400 ≤ status < 600) →
  py_eq (default PNone (dict_lookup "response_code" items)) (PInt 0) = false →
  get_questions d f w =
    (Ok None,
     put_stdout
       (DataError (ValueError "No questions available for the given parameters."))
       (put_request (default_params d) w)).
Proof.
  intros Hr Hs Hc. unfold get_questions, get_questions_with. run. rewrite Hr.
  cbn [fst snd]. rewrite decide_False by done.
  unfold py_get. by rewrite Hc.
Qed.

Lemma get_questions_success d f w status body q :
  reply f = Response status (Some body) → ¬ (400 ≤ status < 600) →
  py_get body "response_code" = Ok (PInt 0) →
  from_api_response body (draws f) = Ok q →
  get_questions d f w = (Ok (Some q), put_request (default_params d) w).
Proof.
  intros Hr Hs Hc Hq. unfold get_questions, get_questions_with. run. rewrite Hr.
  cbn [fst snd]. rewrite decide_False by done.
  by rewrite Hc, Hq.
Qed.

(** C5 (as amended): in both failure modes [get_questions] returns [None].
    After a connection error or a 4xx/5xx status it has printed
    "Error fetching questions: ...", after a body with a non-zero
    [response_code] it has printed "Data error: No questions available for
    the given parameters."; nothing else changes but the request log. *)
Theorem get_questions_failure_returns_None (d : string) (f : fetch) (w : World) :
  transport_failure (reply f) ∨ nonzero_response_code (reply f) →
  ∃ line,
    get_questions d f w
      = (Ok None, put_stdout line (put_request (default_params d) w)) ∧
    (transport_failure (reply f) →
       ∃ why, line = ErrorFetching (RequestException why)) ∧
    (nonzero_response_code (reply f) →
       line = DataError
                (ValueError "No questions available for the given parameters.")).
Proof.
  intros Hmode. destruct (reply f) as [|status body] eqn:Hr.
  - eexists. split; [by apply get_questions_no_response|].
    split; [by eexists|]. intros [].
  - destruct (decide (400 ≤ status < 600)) as [Hs|Hs].
    + eexists. split; [by eapply get_questions_http_error|].
      split; [by eexists|].
      simpl. destruct body as [[]|]; tauto.
    + destruct Hmode as [Ht|Hn]; [done|].
      destruct body as [[| | | | |items]|]; simpl in Hn; try done.
      destruct Hn as [_ Hc].
      eexists. split; [by eapply get_questions_nonzero_code|].
      split; [done|]. done.
Qed.

Lemma get_questions_failure_returns_None_witness :
  (transport_failure (reply fetch_down) ∨
   nonzero_response_code (reply fetch_down)) ∧
  ∃ line,
    get_questions "easy" fetch_down new_world
      = (Ok None, put_stdout line (put_request (default_params "easy") new_world)) ∧
    (transport_failure (reply fetch_down) →
       ∃ why, line = ErrorFetching (RequestException why)) ∧
    (nonzero_response_code (reply fetch_down) →
       line = DataError
                (ValueError "No questions available for the given parameters.")).
Proof.
  split; [left; exact I|].
  apply (get_questions_failure_returns_None "easy" fetch_down new_world).
  left. exact I.
Defined.

(** C5 (as stated) fails: a connection error and a non-zero [response_code]
    give the caller the same value, so no function of the returned value
    tells a [NetworkError] from a [NoQuestionsAvailable]. *)
Lemma get_questions_failures_indistinguishable :
  transport_failure (reply fetch_down) ∧
  nonzero_response_code (reply fetch_none_available) ∧
  ¬ ∃ kind : res (option Question) → FailureKind,
      kind (get_questions "easy" fetch_down new_world).1 = NetworkError ∧
      kind (get_questions "easy" fetch_none_available new_world).1
        = NoQuestionsAvailable.
Proof.
  split; [exact I|]. split.
  - split; [|reflexivity]. intros [? ?]. lia.
  - intros (kind & H1 & H2).
    change (get_questions "easy" fetch_down new_world).1
      with (@Ok (option Question) None) in H1.
    change (get_questions "easy" fetch_none_available new_world).1
      with (@Ok (option Question) None) in H2.
    congruence.
Qed.

(** C6: the code lets an exception through.  With [response_code] 0 and an
    empty [results] list [get_questions] raises [IndexError]; with the
    ['results'] key missing it raises [KeyError].  Neither is a
    [RequestException] or a [ValueError], so no handler applies. *)
Theorem get_questions_raises_on_bad_results (d : string) (w : World) :
  get_questions d fetch_empty_results w
    = (Raise IndexError, put_request (default_params d) w) ∧
  get_questions d fetch_missing_results w
    = (Raise KeyError, put_request (default_params d) w).
Proof. split; reflexivity. Qed.

(** *** [random.shuffle] and [Question.from_api_response] *)

Lemma swap_Permutation {A} (x : list A) (i j : nat) : swap x i j ≡ₚ x.
Proof.
  unfold swap.
  destruct (x !! i) as [xi|] eqn:Hi; [|done].
  destruct (x !! j) as [xj|] eqn:Hj; [|done].
  by apply Permutation_insert_swap.
Qed.

Lemma shuffle_from_Permutation {A} (i : nat) :
  ∀ (draws : list nat) (x : list A), shuffle_from i draws x ≡ₚ x.
Proof.
  induction i as [|i IH]; intros draws x; [done|].
  simpl. rewrite IH. apply swap_Permutation.
Qed.

Lemma shuffle_Permutation {A} (draws : list nat) (x : list A) :
  shuffle draws x ≡ₚ x.
Proof. apply shuffle_from_Permutation. Qed.

Lemma res_bind_Ok {A B} (m : res A) (k : A → res B) (b : B) :
  m ≫= k = Ok b → ∃ a, m = Ok a ∧ k a = Ok b.
Proof. destruct m as [a| |]; [by exists a|done..]. Qed.

(** What a successful [from_api_response] has read and built. *)
Lemma from_api_response_Ok (api_response : pyval) (draws : list nat) (q : Question) :
  from_api_response api_response draws = Ok q →
  ∃ record incorrect,
    record_of api_response = Ok record ∧
    py_item record "incorrect_answers" = Ok (PList incorrect) ∧
    py_item record "correct_answer" = Ok (correct_answer q) ∧
    py_item record "category" = Ok (category q) ∧
    py_item record "question" = Ok (question_text q) ∧
    options q = shuffle draws (incorrect ++ [correct_answer q]).
Proof.
  unfold from_api_response, record_of. intros H.
  apply res_bind_Ok in H as (results & -> & H).
  apply res_bind_Ok in H as (record & Hrec & H).
  apply res_bind_Ok in H as (inc & Hinc & H).
  apply res_bind_Ok in H as (correct & Hcorrect & H).
  apply res_bind_Ok in H as (opts & Hopts & H).
  apply res_bind_Ok in H as (cat & Hcat & H).
  apply res_bind_Ok in H as (text & Htext & H).
  apply res_bind_Ok in H as (correct' & Hcorrect' & H).
  assert (correct' = correct) as -> by congruence.
  destruct inc as [| | | |incorrect|]; try done.
  simpl in Hopts. injection Hopts as <-. injection H as <-.
  exists record, incorrect. simpl. by rewrite Hrec.
Qed.

(** C3: every question built by [from_api_response] has its correct answer
    among its options, and one option more than the record has incorrect
    answers; the options are a permutation of the incorrect answers plus the
    correct answer, and [correct_answer] is the record's own value. *)
Theorem from_api_response_invariant
    (api_response : pyval) (draws : list nat) (q : Question) :
  from_api_response api_response draws = Ok q →
  ∃ record incorrect,
    record_of api_response = Ok record ∧
    py_item record "incorrect_answers" = Ok (PList incorrect) ∧
    py_item record "correct_answer" = Ok (correct_answer q) ∧
    options q ≡ₚ incorrect ++ [correct_answer q] ∧
    correct_answer q ∈ options q ∧
    length (options q) = (length incorrect + 1)%nat.
Proof.
  intros H.
  apply from_api_response_Ok in H
    as (record & incorrect & Hrec & Hinc & Hcor & _ & _ & Hopts).
  exists record, incorrect. split_and!; [done..| | |].
  - rewrite Hopts. apply shuffle_Permutation.
  - rewrite Hopts, shuffle_Permutation. set_solver.
  - rewrite Hopts, shuffle_Permutation, length_app. done.
Qed.

Lemma from_api_response_invariant_witness :
  from_api_response (sample_body 0 [sample_record ["A"; "B"; "D"] "C"])
                    [5; 1; 0]%nat = Ok sample_question ∧
  ∃ record incorrect,
    record_of (sample_body 0 [sample_record ["A"; "B"; "D"] "C"]) = Ok record ∧
    py_item record "incorrect_answers" = Ok (PList incorrect) ∧
    py_item record "correct_answer" = Ok (correct_answer sample_question) ∧
    options sample_question ≡ₚ incorrect ++ [correct_answer sample_question] ∧
    correct_answer sample_question ∈ options sample_question ∧
    length (options sample_question) = (length incorrect + 1)%nat.
Proof.
  split; [reflexivity|].
  apply (from_api_response_invariant
           (sample_body 0 [sample_record ["A"; "B"; "D"] "C"]) [5; 1; 0]%nat).
  reflexivity.
Defined.

(** C9 (as amended): the options are pairwise distinct exactly when the
    provider's incorrect answers together with its correct answer are; the
    code copies and shuffles them and removes nothing. *)
Theorem from_api_response_options_NoDup
    (api_response : pyval) (draws : list nat) (q : Question) :
  from_api_response api_response draws = Ok q →
  ∃ record incorrect,
    record_of api_response = Ok record ∧
    py_item record "incorrect_answers" = Ok (PList incorrect) ∧
    py_item record "correct_answer" = Ok (correct_answer q) ∧
    (NoDup (options q) ↔ NoDup (incorrect ++ [correct_answer q])).
Proof.
  intros H.
  apply from_api_response_Ok in H
    as (record & incorrect & Hrec & Hinc & Hcor & _ & _ & Hopts).
  exists record, incorrect. split_and!; [done..|].
  rewrite Hopts. by rewrite shuffle_Permutation.
Qed.

Lemma from_api_response_options_NoDup_witness :
  from_api_response (sample_body 0 [sample_record ["A"; "B"; "D"] "C"])
                    [5; 1; 0]%nat = Ok sample_question ∧
  ∃ record incorrect,
    record_of (sample_body 0 [sample_record ["A"; "B"; "D"] "C"]) = Ok record ∧
    py_item record "incorrect_answers" = Ok (PList incorrect) ∧
    py_item record "correct_answer" = Ok (correct_answer sample_question) ∧
    (NoDup (options sample_question)
     ↔ NoDup (incorrect ++ [correct_answer sample_question])).
Proof.
  split; [reflexivity|].
  apply (from_api_response_options_NoDup
           (sample_body 0 [sample_record ["A"; "B"; "D"] "C"]) [5; 1; 0]%nat).
  reflexivity.
Defined.

(** C9 (as stated) fails: a record that lists the same incorrect answer
    twice yields a question whose options repeat it. *)
Lemma from_api_response_repeated_option :
  ∃ q, from_api_response (sample_body 0 [sample_record ["A"; "A"; "B"] "C"])
                         [0; 0; 0]%nat = Ok q ∧
       ¬ NoDup (options q).
Proof.
  eexists. split; [reflexivity|].
  intros Hnd.
  pose proof (NoDup_lookup _ 0%nat 3%nat (PStr "A") Hnd eq_refl eq_refl).
  done.
Qed.

(** *** Turn rotation *)

Lemma advance_run (w : World) :
  players (game w) ≠ [] → advance w = (Ok (), advanced w).
Proof.
  intros Hne. unfold advance, advanced. run.
  rewrite decide_False by (destruct (players (game w)); [done|simpl; lia]).
  cbn [fst snd]. by destruct (decide _).
Qed.

Lemma ask_question_yields (w : World) f rest q l :
  fetch_yields f q →
  getitem (players (game w)) (round_player_index (gui w)) = Ok l →
  ask_question (f :: rest) w = (Ok rest, asked q l w).
Proof.
  intros Hy Hl. cbn [ask_question]. run. rewrite Hl. cbn [fst snd].
  by rewrite Hy.
Qed.

Lemma ask_question_fails (w : World) f rest l :
  fetch_fails f →
  getitem (players (game w)) (round_player_index (gui w)) = Ok l →
  ∃ line,
    ask_question (f :: rest) w
    = next_player rest
        (put_dialog InfoFetchError
           (put_stdout line
              (put_request
                 (default_params (DEFAULT_DIFFICULTY (cls (heap w !!! l)))) w))).
Proof.
  intros Hf Hl.
  destruct (Hf (DEFAULT_DIFFICULTY (cls (heap w !!! l))) w) as [line Hline].
  exists line. cbn [ask_question]. unfold next_player. run.
  rewrite Hl. cbn [fst snd]. by rewrite Hline.
Qed.

Lemma advanced_fields (w : World) :
  let n := Z.of_nat (length (players (game w))) in
  let i' := (round_player_index (gui w) + 1) `mod` n in
  heap (advanced w) = heap w ∧
  players (game (advanced w)) = players (game w) ∧
  round_player_index (gui (advanced w)) = i' ∧
  round (game (advanced w))
    = round (game w) + (if decide (i' = 0) then 1 else 0).
Proof.
  unfold advanced. cbn [on_gui gui with_round_player_index round_player_index].
  destruct (decide _); cbn; split_and!; try done; lia.
Qed.

(** One call of [next_player] whose fetch brings a question. *)
Lemma next_player_yields (w : World) f rest q :
  players (game w) ≠ [] → fetch_yields f q →
  ∃ l, next_player (f :: rest) w = (Ok rest, asked q l (advanced w)).
Proof.
  intros Hne Hy.
  destruct (advanced_fields w) as (_ & Hps & Hi & _).
  destruct (getitem_Some (players (game (advanced w)))
              (round_player_index (gui (advanced w)))) as (l & Hl & _).
  { rewrite Hi, Hps. apply Z.mod_pos_bound.
    destruct (players (game w)); [done|simpl; lia]. }
  exists l. unfold next_player.
  change (advance;; ask_question (f :: rest))
    with (λ w, match advance w with
               | (Ok _, w') => ask_question (f :: rest) w'
               | (Raise e, w') => (Raise e, w')
               | (Pending, w') => (Pending, w')
               end).
  cbv beta. rewrite advance_run by done.
  by apply ask_question_yields.
Qed.

Lemma wrap_count (n i k : Z) :
  0 ≤ i < n → 0 ≤ k →
  (if decide ((i + 1) `mod` n = 0) then 1 else 0) + ((i + 1) `mod` n + k) `div` n
  = (i + (k + 1)) `div` n.
Proof.
  intros Hi Hk.
  destruct (decide (i + 1 = n)) as [Heq|Hne].
  - replace ((i + 1) `mod` n) with 0
      by (rewrite Heq, Z.mod_same by lia; done).
    rewrite decide_True by done.
    replace (i + (k + 1)) with (1 * n + k) by lia.
    rewrite Z.div_add_l by lia. rewrite Z.add_0_l. lia.
  - rewrite (Z.mod_small (i + 1) n) by lia.
    rewrite decide_False by lia. rewrite Z.add_0_l. f_equal. lia.
Qed.

(** [k] calls in a row, each fetch bringing a question. *)
Lemma turns_yield (fs : list fetch) :
  ∀ (rest : list fetch) (w : World),
    0 ≤ round_player_index (gui w) < Z.of_nat (length (players (game w))) →
    Forall (λ f, ∃ q, fetch_yields f q) fs →
    ∃ w', turns (length fs) (fs ++ rest) w = (Ok rest, w') ∧
      heap w' = heap w ∧
      players (game w') = players (game w) ∧
      round_player_index (gui w')
        = (round_player_index (gui w) + Z.of_nat (length fs))
            `mod` Z.of_nat (length (players (game w))) ∧
      round (game w')
        = round (game w)
          + (round_player_index (gui w) + Z.of_nat (length fs))
              `div` Z.of_nat (length (players (game w))).
Proof.
  induction fs as [|f fs IH]; intros rest w Hi Hfs.
  - exists w. simpl. rewrite Z.add_0_r.
    rewrite Z.mod_small, Z.div_small by done.
    split_and!; try done. lia.
  - apply Forall_cons in Hfs as [[q Hq] Hfs].
    assert (players (game w) ≠ []) as Hne.
    { intros Hnil. rewrite Hnil in Hi. simpl in Hi. lia. }
    destruct (next_player_yields w f (fs ++ rest) q Hne Hq) as [l Hstep].
    destruct (advanced_fields w) as (Hh & Hps & Hidx & Hround).
    cbv zeta in Hidx, Hround.
    set (n := Z.of_nat (length (players (game w)))) in *.
    set (i := round_player_index (gui w)) in *.
    destruct (IH rest (asked q l (advanced w))) as (w' & Hrun & Hh' & Hps' & Hidx' & Hround').
    { cbn. rewrite Hidx, Hps. apply Z.mod_pos_bound. lia. }
    { done. }
    exists w'. cbn [length turns app].
    change (turns (S ?k) ?net) with (next_player net ≫= turns k).
    unfold mbind at 1, M_bind at 1. rewrite Hstep.
    split_and!; [done| | | |].
    + by rewrite Hh'.
    + by rewrite Hps'.
    + rewrite Hidx'. cbn. rewrite Hidx, Hps. fold n.
      rewrite Zplus_mod_idemp_l. f_equal. lia.
    + rewrite Hround'. cbn. rewrite Hidx, Hround, Hps. fold n.
      rewrite <- Z.add_assoc. f_equal.
      rewrite Nat2Z.inj_succ. unfold Z.succ.
      apply wrap_count; lia.
Qed.

Lemma fetch_good_yields : fetch_yields fetch_good sample_question.
Proof.
  intros d w. eapply get_questions_success; [reflexivity| |reflexivity..].
  intros [? ?]. lia.
Qed.

Lemma fetch_down_fails : fetch_fails fetch_down.
Proof. intros d w. eexists. by apply get_questions_no_response. Qed.

(** Whole calls of [next_player]: in a state whose index is within the
    registry, calls whose fetch brings a question each move the index to
    [(index + 1) mod N] and add one to the round exactly when the new index
    is 0.  So [N] such calls bring the index back and add exactly 1 to the
    round, and with 3 players 7 such calls from index 0 and round 1 end at
    index 1 in round 3. *)
Theorem next_player_round_robin (w : World) (fs rest : list fetch) :
  let n := Z.of_nat (length (players (game w))) in
  let i := round_player_index (gui w) in
  let k := Z.of_nat (length fs) in
  0 ≤ i < n →
  Forall (λ f, ∃ q, fetch_yields f q) fs →
  ∃ w', turns (length fs) (fs ++ rest) w = (Ok rest, w') ∧
    heap w' = heap w ∧
    players (game w') = players (game w) ∧
    (k = 1 →
       next_player (fs ++ rest) w = (Ok rest, w') ∧
       round_player_index (gui w') = (i + 1) `mod` n ∧
       round (game w')
         = round (game w) + (if decide ((i + 1) `mod` n = 0) then 1 else 0)) ∧
    (k = n →
       round_player_index (gui w') = i ∧ round (game w') = round (game w) + 1) ∧
    (n = 3 → i = 0 → round (game w) = 1 → k = 7 →
       round_player_index (gui w') = 1 ∧ round (game w') = 3).
Proof.
  intros n i k Hi Hfs.
  destruct (turns_yield fs rest w Hi Hfs) as (w' & Hrun & Hh & Hps & Hidx & Hround).
  fold n i k in Hidx, Hround.
  exists w'. split_and!; [done..| | |].
  - intros Hk. rewrite Hk in Hidx, Hround. split_and!; [|done|].
    + destruct fs as [|f [|? ?]]; try (unfold k in Hk; simpl in Hk; lia).
      simpl in Hrun |- *.
      unfold mbind, M_bind in Hrun.
      destruct (next_player (f :: rest) w) as [[net'| |] w1]; [|done..].
      by injection Hrun as -> ->.
    + rewrite Hround. f_equal.
      pose proof (wrap_count n i 0 Hi (Z.le_refl 0)) as Hw.
      rewrite Z.add_0_r, (Z.div_small ((i + 1) `mod` n) n) in Hw
        by (apply Z.mod_pos_bound; lia).
      rewrite Z.add_0_l, Z.add_0_r in Hw. done.
  - intros Hk. rewrite Hk in Hidx, Hround. split.
    + rewrite Hidx. rewrite <- (Z.mul_1_l n) at 1.
      rewrite Z_mod_plus_full. by apply Z.mod_small.
    + rewrite Hround. f_equal. rewrite <- (Z.mul_1_l n) at 1.
      rewrite Z_div_plus_full by lia. rewrite Z.div_small by done. done.
  - intros Hn Hi0 Hr Hk. rewrite Hidx, Hround, Hn, Hi0, Hr, Hk. done.
Qed.

Lemma next_player_round_robin_witness :
  0 ≤ round_player_index (gui three_players)
    < Z.of_nat (length (players (game three_players))) ∧
  Forall (λ f, ∃ q, fetch_yields f q) (replicate 7 fetch_good) ∧
  ∃ w', turns 7 (replicate 7 fetch_good ++ []) three_players = (Ok [], w') ∧
        round_player_index (gui w') = 1 ∧ round (game w') = 3.
Proof.
  assert (0 ≤ round_player_index (gui three_players)
            < Z.of_nat (length (players (game three_players)))) as Hi
    by (vm_compute; split; [discriminate|reflexivity]).
  assert (Forall (λ f, ∃ q, fetch_yields f q) (replicate 7 fetch_good)) as Hfs
    by (apply Forall_replicate; exists sample_question; apply fetch_good_yields).
  split_and!; [done..|].
  destruct (next_player_round_robin three_players (replicate 7 fetch_good) [] Hi Hfs)
    as (w' & Hrun & _ & _ & _ & _ & Hscenario).
  exists w'. split; [exact Hrun|].
  apply Hscenario; reflexivity.
Defined.

(** When the fetch inside [next_player] fails, [ask_question] calls
    [next_player] again: a second advance happens before the first call
    returns. *)
Lemma next_player_skips_after_failed_fetch :
  round_player_index (gui three_players) = 0 ∧
  length (players (game three_players)) = 3%nat ∧
  fetch_fails fetch_down ∧
  ∃ w', next_player [fetch_down; fetch_good] three_players = (Ok [], w') ∧
        round_player_index (gui w') = 2 ∧
        round_player_index (gui w')
          ≠ (round_player_index (gui three_players) + 1) `mod` 3.
Proof.
  split_and!; [reflexivity|reflexivity|apply fetch_down_fails|].
  eexists. split; [vm_compute; reflexivity|]. split; [reflexivity|].
  vm_compute. discriminate.
Qed.

(** *** Scoring *)

(** Nothing but [submit_answer]'s own [add_score] writes to the players. *)
Lemma get_questions_heap d f w : heap (get_questions d f w).2 = heap w.
Proof.
  unfold get_questions, get_questions_with. run.
  destruct (reply f) as [|status body]; cbn; [done|].
  destruct (decide _); cbn; [done|].
  destruct body as [v|]; cbn; [|done].
  destruct (py_get v _) as [code|e|]; cbn; [|by destruct e as [| | | | | |]|done].
  destruct (negb _); cbn; [done|].
  destruct (from_api_response _ _) as [q|e|]; cbn; [done| |done].
  by destruct e as [| | | | | |].
Qed.

Lemma advance_heap w : heap (advance w).2 = heap w.
Proof.
  unfold advance. run. destruct (decide _); cbn; [done|].
  by destruct (decide _).
Qed.

Lemma ask_question_heap (net : list fetch) :
  ∀ w, heap (ask_question net w).2 = heap w.
Proof.
  induction net as [|f net IH]; intros w; [done|].
  cbn [ask_question]. run.
  destruct (getitem _ _) as [l|e|]; cbn [fst snd]; [|done..].
  pose proof (get_questions_heap (DEFAULT_DIFFICULTY (cls (heap w !!! l))) f w) as Hq.
  destruct (get_questions _ f w) as [[[q|]|e|] w1]; cbn [fst snd] in *; try done.
  pose proof (advance_heap (put_dialog InfoFetchError w1)) as Ha.
  destruct (advance _) as [[[]|e|] w2]; cbn [fst snd] in *;
    [|by rewrite Ha..].
  rewrite IH, Ha. done.
Qed.

Lemma next_player_heap net w : heap (next_player net w).2 = heap w.
Proof.
  unfold next_player. run.
  pose proof (advance_heap w) as Ha.
  destruct (advance w) as [[[]|e|] w1]; cbn [fst snd] in *; [|done..].
  by rewrite ask_question_heap.
Qed.

(** What follows the scoring in [submit_answer] leaves the players alone. *)
Lemma after_scoring_heap net w :
  heap ((net' ← next_player net; update_leaderboard;; mret net') w).2 = heap w.
Proof.
  unfold update_leaderboard. run.
  pose proof (next_player_heap net w) as Hn.
  by destruct (next_player net w) as [[net'|e|] w1]; cbn [fst snd] in *.
Qed.

Lemma submit_answer_nonzero (w : World) net l k q chosen :
  getitem (players (game w)) (round_player_index (gui w)) = Ok l →
  option_vars (gui w) = Some k → k ≠ 0 →
  current_question (gui w) = Some q →
  getitem (options q) (k - 1) = Ok chosen →
  submit_answer net w =
    if py_eq chosen (correct_answer q) then
      after_scoring net
        (on_heap (λ h, <[l := add_score 1 (h !!! l)]> h)
                 (put_dialog InfoCorrect w))
    else
      match py_index (options q) (correct_answer q) with
      | Ok correct_idx =>
          match getitem (options q) correct_idx with
          | Ok answer => after_scoring net (put_dialog (InfoWrong answer) w)
          | Raise e => (Raise e, w)
          | Pending => (Pending, w)
          end
      | Raise e => (Raise e, w)
      | Pending => (Pending, w)
      end.
Proof.
  intros Hl Hk Hk0 Hq Hc. unfold submit_answer, after_scoring, update_leaderboard.
  run. rewrite Hl. cbn [fst snd]. rewrite Hk. cbn [from_option].
  rewrite decide_False by done. rewrite Hq. cbn [from_option]. rewrite Hc.
  destruct (py_eq chosen (correct_answer q)); [done|].
  destruct (py_index _ _) as [idx|e|]; [|done..].
  by destruct (getitem (options q) idx) as [answer|e|].
Qed.

(** C7: when the selected option equals the correct answer, [submit_answer]
    adds 1 to the score of the current player and leaves every other player
    as it was; when an in-range selection is another option, no player
    changes.  In the first case the call returns once the next question has
    arrived. *)
Theorem submit_answer_scores (w : World) (net : list fetch) (l : nat)
    (q : Question) (k : Z) (chosen : pyval) :
  getitem (players (game w)) (round_player_index (gui w)) = Ok l →
  option_vars (gui w) = Some k →
  current_question (gui w) = Some q →
  1 ≤ k ≤ Z.of_nat (length (options q)) →
  options q !! Z.to_nat (k - 1) = Some chosen →
  (py_eq chosen (correct_answer q) = true →
     score (heap (submit_answer net w).2 !!! l) = score (heap w !!! l) + 1 ∧
     (∀ l', l' ≠ l → heap (submit_answer net w).2 !! l' = heap w !! l') ∧
     (∀ f rest q', net = f :: rest → fetch_yields f q' →
        (submit_answer net w).1 = Ok rest)) ∧
  (py_eq chosen (correct_answer q) = false →
     heap (submit_answer net w).2 = heap w).
Proof.
  intros Hl Hk Hq Hrange Hchosen.
  assert (getitem (options q) (k - 1) = Ok chosen) as Hget.
  { destruct (getitem_Some (options q) (k - 1)) as (x & Hx & Hx'); [lia|].
    congruence. }
  rewrite (submit_answer_nonzero w net l k q chosen) by (done || lia).
  split; intros Heq; rewrite Heq.
  - unfold after_scoring. split_and!.
    + rewrite after_scoring_heap. cbn.
      by rewrite lookup_total_insert_eq.
    + intros l' Hne. rewrite after_scoring_heap. cbn.
      by rewrite lookup_insert_ne.
    + intros f rest q' -> Hy.
      set (w1 := on_heap _ _).
      assert (players (game w1) ≠ []) as Hne.
      { cbn. intros Hnil. by rewrite Hnil, getitem_nil in Hl. }
      destruct (next_player_yields w1 f rest q' Hne Hy) as [l2 Hstep].
      unfold update_leaderboard. run. by rewrite Hstep.
  - destruct (py_index _ _) as [idx|e|]; [|done..].
    destruct (getitem (options q) idx) as [answer|e|]; [|done..].
    unfold after_scoring. by rewrite after_scoring_heap.
Qed.

Lemma submit_answer_scores_witness :
  getitem (players (game (three_players_selecting 3)))
          (round_player_index (gui (three_players_selecting 3))) = Ok 0%nat ∧
  option_vars (gui (three_players_selecting 3)) = Some 3 ∧
  current_question (gui (three_players_selecting 3)) = Some sample_question ∧
  1 ≤ 3 ≤ Z.of_nat (length (options sample_question)) ∧
  options sample_question !! Z.to_nat (3 - 1) = Some (PStr "C") ∧
  py_eq (PStr "C") (correct_answer sample_question) = true ∧
  score (heap (submit_answer [fetch_good] (three_players_selecting 3)).2 !!! 0%nat)
    = score (heap (three_players_selecting 3) !!! 0%nat) + 1.
Proof.
  assert (getitem (players (game (three_players_selecting 3)))
            (round_player_index (gui (three_players_selecting 3))) = Ok 0%nat)
    as H1 by reflexivity.
  assert (option_vars (gui (three_players_selecting 3)) = Some 3)
    as H2 by reflexivity.
  assert (current_question (gui (three_players_selecting 3)) = Some sample_question)
    as H3 by reflexivity.
  assert (1 ≤ 3 ≤ Z.of_nat (length (options sample_question)))
    as H4 by (simpl; lia).
  assert (options sample_question !! Z.to_nat (3 - 1) = Some (PStr "C"))
    as H5 by reflexivity.
  assert (py_eq (PStr "C") (correct_answer sample_question) = true)
    as H6 by reflexivity.
  split_and!; [done..|].
  apply (submit_answer_scores (three_players_selecting 3) [fetch_good] 0%nat
           sample_question 3 (PStr "C") H1 H2 H3 H4 H5).
  exact H6.
Defined.

(** *** Rejected selections *)

(** With nothing selected (value 0) [submit_answer] shows the "Please
    select an option." warning and returns, the world otherwise unchanged.
    A value above [len(options)], or at or below [-len(options)], would
    raise [IndexError] before any change. *)
Theorem submit_answer_rejects (w : World) (net : list fetch) (l : nat) (k : Z) :
  getitem (players (game w)) (round_player_index (gui w)) = Ok l →
  option_vars (gui w) = Some k →
  (k = 0 → submit_answer net w = (Ok net, put_dialog WarnSelectOption w)) ∧
  (∀ q, current_question (gui w) = Some q →
        k ≠ 0 →
        Z.of_nat (length (options q)) < k ∨ k ≤ - Z.of_nat (length (options q)) →
        submit_answer net w = (Raise IndexError, w)).
Proof.
  intros Hl Hk. split.
  - intros ->. unfold submit_answer. run. rewrite Hl. cbn [fst snd].
    rewrite Hk. cbn [from_option]. by rewrite decide_True by done.
  - intros q Hq Hk0 Hlen. unfold submit_answer. run. rewrite Hl. cbn [fst snd].
    rewrite Hk. cbn [from_option]. rewrite decide_False by done.
    rewrite Hq. cbn [from_option].
    by rewrite getitem_out_of_range by lia.
Qed.

Lemma submit_answer_rejects_witness :
  getitem (players (game (three_players_selecting 0)))
          (round_player_index (gui (three_players_selecting 0))) = Ok 0%nat ∧
  option_vars (gui (three_players_selecting 0)) = Some 0 ∧
  submit_answer [fetch_good] (three_players_selecting 0)
    = (Ok [fetch_good], put_dialog WarnSelectOption (three_players_selecting 0)).
Proof.
  assert (getitem (players (game (three_players_selecting 0)))
            (round_player_index (gui (three_players_selecting 0))) = Ok 0%nat)
    as H1 by reflexivity.
  assert (option_vars (gui (three_players_selecting 0)) = Some 0)
    as H2 by reflexivity.
  split_and!; [done..|].
  apply (submit_answer_rejects (three_players_selecting 0) [fetch_good] 0%nat 0
           H1 H2).
  reflexivity.
Defined.

(** ** Further properties of [insertion_sort] *)

Lemma placed_at_end {A} (sc : A → Z) (key : A) (pre out : list A) :
  StronglySorted (desc sc) (pre ++ [key]) → placed sc key pre out →
  out = pre ++ [key].
Proof.
  intros Hs (a & b & -> & -> & Hb & _).
  destruct b as [|x b]; [by rewrite (right_id_L [] (++))|exfalso].
  apply Forall_cons in Hb as [Hx _].
  assert (desc sc x key) as Hd.
  { eapply (StronglySorted_app_1_elem_of _ (a ++ x :: b) [key]);
      [done|set_solver..]. }
  unfold desc in Hd. lia.
Qed.

Lemma for_loop_sorted {A} (sc : A → Z) (rest : list A) :
  ∀ pre : list A, StronglySorted (desc sc) (pre ++ rest) →
    for_loop sc (Z.of_nat <$> seq (length pre) (length rest)) (pre ++ rest)
    = Ok (pre ++ rest).
Proof.
  induction rest as [|key rest IH]; intros pre Hs; [done|].
  cbn [length seq fmap list_fmap for_loop].
  destruct (for_body_spec sc pre key rest) as (out1 & Hpl & ->).
  change (mbind ?f (Ok ?v)) with (f v). cbv beta.
  assert (pre ++ key :: rest = (pre ++ [key]) ++ rest) as Hmid
    by (by rewrite <- (assoc_L (++) pre [key] rest)).
  rewrite Hmid in Hs.
  assert (out1 = pre ++ [key]) as ->.
  { eapply placed_at_end; [|done]. by apply StronglySorted_app_1_l in Hs. }
  specialize (IH (pre ++ [key]) Hs).
  rewrite length_app in IH. simpl in IH.
  replace (length pre + 1)%nat with (S (length pre)) in IH by lia.
  by rewrite Hmid.
Qed.

Lemma insertion_sort_of_sorted {A} (sc : A → Z) (ps : list A) :
  StronglySorted (desc sc) ps → insertion_sort sc ps = Ok ps.
Proof.
  intros Hs. unfold insertion_sort. destruct ps as [|p rest]; [done|].
  pose proof (for_loop_sorted sc rest [p] Hs) as Hrun.
  simpl length in Hrun.
  rewrite <- (py_range_seq 1 (length rest)) in Hrun. exact Hrun.
Qed.

(** X1: a list that is already in descending order of score comes back
    from [insertion_sort] exactly as it went in. *)
Theorem insertion_sort_sorted_unchanged {A} (sc : A → Z) (ps : list A) :
  StronglySorted (desc sc) ps → insertion_sort sc ps = Ok ps.
Proof. apply insertion_sort_of_sorted. Qed.

Lemma insertion_sort_sorted_unchanged_witness :
  StronglySorted (desc score) [bob5; alice3; carol3] ∧
  insertion_sort score [bob5; alice3; carol3] = Ok [bob5; alice3; carol3].
Proof.
  assert (StronglySorted (desc score) [bob5; alice3; carol3]) as Hs.
  { repeat (constructor; [|repeat constructor; unfold desc; simpl; lia]).
    constructor. }
  split; [exact Hs|].
  exact (insertion_sort_sorted_unchanged score [bob5; alice3; carol3] Hs).
Defined.

(** X2: sorting is idempotent: a second [insertion_sort] of the result
    changes nothing. *)
Theorem insertion_sort_idempotent {A} (sc : A → Z) (ps : list A) :
  ∃ out, insertion_sort sc ps = Ok out ∧ insertion_sort sc out = Ok out.
Proof.
  destruct (insertion_sort_ranked sc ps) as (out & Hrun & _ & Hsorted & _).
  exists out. split; [done|]. by apply insertion_sort_of_sorted.
Qed.

(** ** Further properties of [add_player] *)

Lemma add_player_other_type_aux (nm t : string) (w : World) :
  t ≠ "child" → t ≠ "adult" → add_player nm t w = (Ok (), w).
Proof.
  intros Hc Ha. unfold add_player.
  rewrite decide_False by done. by rewrite decide_False by done.
Qed.

Lemma class_of_type_Some (t : string) (c : PlayerClass) :
  class_of_type t = Some c →
  (t = "child" ∧ c = ChildPlayer) ∨ (t = "adult" ∧ c = AdultPlayer).
Proof.
  unfold class_of_type. repeat case_decide; naive_solver.
Qed.

Lemma add_player_run (nm t : string) (c : PlayerClass) (w : World) :
  class_of_type t = Some c →
  add_player nm t w
  = (Ok (),
     on_game (λ g, with_players (players g ++ [fresh (dom (heap w))]) g)
       (on_heap (insert (fresh (dom (heap w))) (new_player c nm)) w)).
Proof.
  intros [[-> ->]|[-> ->]]%class_of_type_Some; reflexivity.
Qed.

(** X3: [add_player] with type "child" or "adult" appends one new object at
    the end of the registry: an address that was not in use, holding the
    given name, score 0 and the class of that type (difficulty "easy" for a
    child, "medium" for an adult).  The objects already there, the round and
    the window are untouched. *)
Theorem add_player_appends (nm t : string) (c : PlayerClass) (w : World) :
  class_of_type t = Some c →
  ∃ l w',
    add_player nm t w = (Ok (), w') ∧
    heap w !! l = None ∧
    players (game w') = players (game w) ++ [l] ∧
    heap w' !! l = Some {| cls := c; name := nm; score := 0 |} ∧
    (∀ l', l' ≠ l → heap w' !! l' = heap w !! l') ∧
    DEFAULT_DIFFICULTY c = (if decide (t = "child") then "easy" else "medium") ∧
    round (game w') = round (game w) ∧ gui w' = gui w.
Proof.
  intros Hc. eexists (fresh (dom (heap w))), _.
  split; [by apply add_player_run|]. cbn. split_and!; try done.
  - apply not_elem_of_dom, is_fresh.
  - by rewrite lookup_insert_eq.
  - intros l' Hne. by rewrite lookup_insert_ne.
  - by destruct (class_of_type_Some t c Hc) as [[-> ->]|[-> ->]].
Qed.

Lemma add_player_appends_witness :
  class_of_type "adult" = Some AdultPlayer ∧
  ∃ l w',
    add_player "Dora" "adult" three_players = (Ok (), w') ∧
    heap three_players !! l = None ∧
    players (game w') = players (game three_players) ++ [l] ∧
    heap w' !! l = Some {| cls := AdultPlayer; name := "Dora"; score := 0 |} ∧
    (∀ l', l' ≠ l → heap w' !! l' = heap three_players !! l') ∧
    DEFAULT_DIFFICULTY AdultPlayer
      = (if decide ("adult" = "child") then "easy" else "medium") ∧
    round (game w') = round (game three_players) ∧ gui w' = gui three_players.
Proof.
  split; [reflexivity|].
  apply (add_player_appends "Dora" "adult" AdultPlayer three_players).
  reflexivity.
Defined.

Lemma add_player_registered (nm t : string) (w : World) :
  registered w → registered (add_player nm t w).2.
Proof.
  intros [Hnd Hlive].
  destruct (class_of_type t) as [c|] eqn:Hc.
  - rewrite (add_player_run nm t c w Hc). split; cbn.
    + apply NoDup_app. split_and!; [done| |apply NoDup_singleton].
      intros l Hl ->%list_elem_of_singleton.
      apply Hlive in Hl. apply elem_of_dom in Hl. by apply is_fresh in Hl.
    + intros l [Hl| ->%list_elem_of_singleton]%elem_of_app.
      * apply lookup_insert_is_Some'. right. by apply Hlive.
      * apply lookup_insert_is_Some'. by left.
  - unfold class_of_type in Hc. repeat case_decide; try done.
    by rewrite add_player_other_type_aux.
Qed.

(** ** Further properties of [get_questions] *)

Lemma getitem_not_Pending {A} (l : list A) (i : Z) : getitem l i ≠ Pending.
Proof.
  unfold getitem. destruct (norm_index _ _) as [k|]; [|done].
  by destruct (l !! k).
Qed.

Lemma from_api_response_not_Pending (api_response : pyval) (ds : list nat) :
  from_api_response api_response ds ≠ Pending.
Proof.
  unfold from_api_response.
  destruct (py_item api_response "results") as [results| |] eqn:H1;
    [|done|by destruct api_response as [| | | | |d]; [..|simpl in H1; destruct (dict_lookup _ d)]].
  cbn [mbind res_bind].
  destruct (py_at results 0) as [record| |] eqn:H2; [|done|].
  2:{ destruct results as [| | |s|l|]; simpl in H2; try done.
      - destruct (norm_index _ _) as [k|]; [|done]. by destruct (String.get k s).
      - by apply getitem_not_Pending in H2. }
  cbn [mbind res_bind].
  destruct record as [| | | | |d]; try done. simpl.
  destruct (dict_lookup "incorrect_answers" d) as [inc|]; [|done]. simpl.
  destruct (dict_lookup "correct_answer" d) as [cor|]; [|done]. simpl.
  destruct inc as [| | | |l|]; try done. simpl.
  destruct (dict_lookup "category" d); [|done]. simpl.
  by destruct (dict_lookup "question" d).
Qed.

(** The three ways a call of [get_questions] can end. *)
Lemma get_questions_cases (d : string) (f : fetch) (w : World) :
  (∃ q, get_questions d f w
        = (Ok (Some q), put_request (default_params d) w)) ∨
  (∃ line, get_questions d f w
        = (Ok None, put_stdout line (put_request (default_params d) w))) ∨
  (∃ e, get_questions d f w = (Raise e, put_request (default_params d) w) ∧
        (∀ why, e ≠ RequestException why) ∧ (∀ msg, e ≠ ValueError msg)).
Proof.
  unfold get_questions, get_questions_with. run.
  destruct (reply f) as [|status body]; cbn; [right; left; by eexists|].
  destruct (decide _); cbn; [right; left; by eexists|].
  destruct body as [v|]; cbn; [|right; left; by eexists].
  destruct (py_get v _) as [code|e|] eqn:Hget; cbn.
  - destruct (negb _); cbn; [right; left; by eexists|].
    pose proof (from_api_response_not_Pending v (draws f)) as Hnp.
    destruct (from_api_response _ _) as [q|e|]; cbn; [left; by eexists| |done].
    destruct e as [| | | | | |]; try (right; left; by eexists);
      right; right; by eexists.
  - destruct v; simpl in Hget; try done; injection Hget as <-;
      right; right; by eexists.
  - by destruct v.
Qed.

(** X4: a call of [get_questions] sends exactly one request (the given
    difficulty, amount 1, no category, type "multiple") and nothing is tried
    again.  It returns [None] exactly when it has printed one line; when it
    returns a question or lets an exception through it prints nothing.  The
    game, the players and the window are never touched. *)
Theorem get_questions_one_request (d : string) (f : fetch) (w : World) :
  requests (get_questions d f w).2 = requests w ++ [default_params d] ∧
  heap (get_questions d f w).2 = heap w ∧
  game (get_questions d f w).2 = game w ∧
  gui (get_questions d f w).2 = gui w ∧
  dialogs (get_questions d f w).2 = dialogs w ∧
  (get_questions d f w).1 ≠ Pending ∧
  ((get_questions d f w).1 = Ok None ↔
     ∃ line, stdout (get_questions d f w).2 = stdout w ++ [line]) ∧
  ((get_questions d f w).1 ≠ Ok None →
     stdout (get_questions d f w).2 = stdout w).
Proof.
  destruct (get_questions_cases d f w)
    as [[q ->]|[[line ->]|(e & -> & _)]]; cbn; split_and!; try done.
  - split; [done|]. intros [line Hline].
    apply (f_equal length) in Hline. rewrite length_app in Hline.
    simpl in Hline. lia.
  - split; [by eexists|done].
  - split; [done|]. intros [line Hline].
    apply (f_equal length) in Hline. rewrite length_app in Hline.
    simpl in Hline. lia.
Qed.

(** X5: [get_questions] hands a question to its caller exactly when the
    request got through, the status is outside 400..599 (any other status
    passes, not only 2xx), the body is JSON, its [response_code] equals 0
    under Python's [==], and [from_api_response] builds the question. *)
Theorem get_questions_returns_question_iff
    (d : string) (f : fetch) (w : World) (q : Question) :
  (get_questions d f w).1 = Ok (Some q) ↔
  ∃ status body code,
    reply f = Response status (Some body) ∧
    ¬ (400 ≤ status < 600) ∧
    py_get body "response_code" = Ok code ∧
    py_eq code (PInt 0) = true ∧
    from_api_response body (draws f) = Ok q.
Proof.
  unfold get_questions, get_questions_with. run. split.
  - destruct (reply f) as [|status body]; cbn; [done|].
    destruct (decide _) as [|Hs]; cbn; [done|].
    destruct body as [v|]; cbn; [|done].
    destruct (py_get v _) as [code|e|] eqn:Hget; cbn;
      [|by destruct e as [| | | | | |]|done].
    destruct (py_eq code (PInt 0)) eqn:Hcode; cbn; [|done].
    destruct (from_api_response _ _) as [q'|e|] eqn:Hq; cbn;
      [|by destruct e as [| | | | | |]|done].
    intros [= ->]. by exists status, v, code.
  - intros (status & body & code & -> & Hs & Hget & Hcode & Hq). cbn.
    rewrite decide_False by done. cbn. by rewrite Hget, Hcode, Hq.
Qed.

(** X6: a JSON object without a ['response_code'] key is taken as "no
    questions": [.get] yields [None], which differs from 0, so the call
    prints the data error and returns [None]. *)
Theorem get_questions_missing_response_code
    (d : string) (f : fetch) (w : World) (status : Z)
    (items : list (string * pyval)) :
  reply f = Response status (Some (PDict items)) →
  ¬ (400 ≤ status < 600) →
  dict_lookup "response_code" items = None →
  get_questions d f w =
    (Ok None,
     put_stdout
       (DataError (ValueError "No questions available for the given parameters."))
       (put_request (default_params d) w)).
Proof.
  intros Hr Hs Hnone. eapply get_questions_nonzero_code; [done..|].
  by rewrite Hnone.
Qed.

Lemma get_questions_missing_response_code_witness :
  reply {| reply := Response 200 (Some (PDict [("results", PList [])]));
           draws := [] |}
    = Response 200 (Some (PDict [("results", PList [])])) ∧
  ¬ (400 ≤ 200 < 600) ∧
  dict_lookup "response_code" [("results", PList [])] = None ∧
  get_questions "easy"
    {| reply := Response 200 (Some (PDict [("results", PList [])]));
       draws := [] |} new_world =
    (Ok None,
     put_stdout
       (DataError (ValueError "No questions available for the given parameters."))
       (put_request (default_params "easy") new_world)).
Proof.
  assert (¬ (400 ≤ 200 < 600)) as Hs by lia.
  split_and!; [reflexivity|exact Hs|reflexivity|].
  exact (get_questions_missing_response_code "easy"
           {| reply := Response 200 (Some (PDict [("results", PList [])]));
              draws := [] |} new_world 200 [("results", PList [])]
           eq_refl Hs eq_refl).
Defined.

Lemma getitem_raises {A} (l : list A) (i : Z) (e : exn) :
  getitem l i = Raise e → e = IndexError.
Proof.
  unfold getitem. destruct (norm_index _ _) as [k|]; [|congruence].
  destruct (l !! k); congruence.
Qed.

Lemma py_item_raises (v : pyval) (key : string) (e : exn) :
  py_item v key = Raise e → e = KeyError ∨ e = TypeError.
Proof.
  destruct v as [| | | | |d]; simpl; try (intros [= <-]; tauto).
  destruct (dict_lookup key d); [done|]. intros [= <-]. tauto.
Qed.

Lemma py_at_raises (v : pyval) (i : Z) (e : exn) :
  py_at v i = Raise e → e = KeyError ∨ e = IndexError ∨ e = TypeError.
Proof.
  destruct v as [| | |s|l|d]; simpl; try (intros [= <-]; tauto).
  - destruct (norm_index _ _) as [k|]; [|intros [= <-]; tauto].
    destruct (String.get k s); [done|]. intros [= <-]. tauto.
  - intros ->%getitem_raises. tauto.
Qed.

Lemma res_bind_Raise {A B} (m : res A) (k : A → res B) (e : exn) :
  m ≫= k = Raise e → m = Raise e ∨ ∃ a, m = Ok a ∧ k a = Raise e.
Proof.
  destruct m as [a|e0|]; intros H;
    [right; by exists a|left; by injection H as ->|done].
Qed.

Lemma from_api_response_raises (api_response : pyval) (ds : list nat) (e : exn) :
  from_api_response api_response ds = Raise e →
  e = KeyError ∨ e = IndexError ∨ e = TypeError.
Proof.
  unfold from_api_response. intros H.
  apply res_bind_Raise in H as [H|(results & _ & H)];
    [apply py_item_raises in H; tauto|].
  apply res_bind_Raise in H as [H|(record & _ & H)];
    [apply py_at_raises in H; tauto|].
  apply res_bind_Raise in H as [H|(inc & _ & H)];
    [apply py_item_raises in H; tauto|].
  apply res_bind_Raise in H as [H|(cor & _ & H)];
    [apply py_item_raises in H; tauto|].
  apply res_bind_Raise in H as [H|(opts & _ & H)].
  { destruct inc; simpl in H; try done; injection H as <-; tauto. }
  apply res_bind_Raise in H as [H|(cat & _ & H)];
    [apply py_item_raises in H; tauto|].
  apply res_bind_Raise in H as [H|(text & _ & H)];
    [apply py_item_raises in H; tauto|].
  apply res_bind_Raise in H as [H|(cor' & _ & H)];
    [apply py_item_raises in H; tauto|done].
Qed.

(** X7: once [response.json()] has returned the decoded body, the only
    exceptions [get_questions] lets through to its caller are [KeyError],
    [IndexError], [TypeError] (from reading the body's fields) and
    [AttributeError] (a body that is not a JSON object).  What [json()]
    itself may raise is outside this statement. *)
Theorem get_questions_raises_only
    (d : string) (f : fetch) (w : World) (status : Z) (body : pyval) (e : exn) :
  reply f = Response status (Some body) →
  (get_questions d f w).1 = Raise e →
  e = KeyError ∨ e = IndexError ∨ e = TypeError ∨ e = AttributeError.
Proof.
  intros Hr. unfold get_questions, get_questions_with. run. rewrite Hr. cbn.
  destruct (decide _); cbn; [done|].
  destruct (py_get body _) as [code|e'|] eqn:Hget; cbn; [| |done].
  - destruct (negb _); cbn; [done|].
    destruct (from_api_response _ _) as [q|e'|] eqn:Hq; cbn; [done| |done].
    apply from_api_response_raises in Hq.
    destruct Hq as [->| [->| ->]]; cbn; intros [= <-]; tauto.
  - destruct body; simpl in Hget; try done; injection Hget as <-;
      cbn; intros [= <-]; tauto.
Qed.

Lemma get_questions_raises_only_witness :
  reply fetch_empty_results = Response 200 (Some (sample_body 0 [])) ∧
  (get_questions "easy" fetch_empty_results new_world).1 = Raise IndexError ∧
  (IndexError = KeyError ∨ IndexError = IndexError ∨
   IndexError = TypeError ∨ IndexError = AttributeError).
Proof.
  split_and!; [reflexivity|reflexivity|].
  exact (get_questions_raises_only "easy" fetch_empty_results new_world
           200 (sample_body 0 []) IndexError eq_refl eq_refl).
Defined.

(** X8: only the first entry of [results] is read: a body with further
    results gives the same question, or the same exception, as the body
    holding that first entry alone. *)
Theorem from_api_response_first_result
    (items : list (string * pyval)) (r : pyval) (more : list pyval)
    (ds : list nat) :
  dict_lookup "results" items = Some (PList (r :: more)) →
  from_api_response (PDict items) ds
  = from_api_response (PDict [("results", PList [r])]) ds.
Proof.
  intros Hres. unfold from_api_response. simpl. by rewrite Hres.
Qed.

Lemma from_api_response_first_result_witness :
  dict_lookup "results"
    [("response_code", PInt 0);
     ("results", PList [sample_record ["A"; "B"; "D"] "C";
                        sample_record ["X"] "Y"])]
  = Some (PList [sample_record ["A"; "B"; "D"] "C"; sample_record ["X"] "Y"]) ∧
  from_api_response
    (PDict [("response_code", PInt 0);
            ("results", PList [sample_record ["A"; "B"; "D"] "C";
                               sample_record ["X"] "Y"])]) [5; 1; 0]%nat
  = from_api_response
      (PDict [("results", PList [sample_record ["A"; "B"; "D"] "C"])])
      [5; 1; 0]%nat.
Proof.
  split; [reflexivity|].
  exact (from_api_response_first_result
           [("response_code", PInt 0);
            ("results", PList [sample_record ["A"; "B"; "D"] "C";
                               sample_record ["X"] "Y"])]
           (sample_record ["A"; "B"; "D"] "C") [sample_record ["X"] "Y"]
           [5; 1; 0]%nat eq_refl).
Defined.

(** X9: the random draws decide nothing but the order of the options:
    whether a question is built, which exception is raised otherwise, and
    the category, text and correct answer are the same for any two runs,
    and the two option lists are permutations of each other. *)
Theorem from_api_response_draws (api_response : pyval) (ds1 ds2 : list nat) :
  match from_api_response api_response ds1,
        from_api_response api_response ds2 with
  | Ok q1, Ok q2 =>
      category q1 = category q2 ∧ question_text q1 = question_text q2 ∧
      correct_answer q1 = correct_answer q2 ∧ options q1 ≡ₚ options q2
  | Raise e1, Raise e2 => e1 = e2
  | _, _ => False
  end.
Proof.
  unfold from_api_response.
  destruct (py_item api_response "results") as [results|e|] eqn:H1; cbn;
    [|done|by destruct api_response as [| | | | |d]; [..|simpl in H1; destruct (dict_lookup _ d)]].
  destruct (py_at results 0) as [record|e|] eqn:H2; cbn; [|done|].
  2:{ destruct results as [| | |s|l|]; simpl in H2; try done.
      - destruct (norm_index _ _) as [k|]; [|done]. by destruct (String.get k s).
      - by apply getitem_not_Pending in H2. }
  destruct record as [| | | | |d]; try done. simpl.
  destruct (dict_lookup "incorrect_answers" d) as [inc|]; [|done]. simpl.
  destruct (dict_lookup "correct_answer" d) as [cor|]; [|done]. simpl.
  destruct inc as [| | | |l|]; try done. simpl.
  destruct (dict_lookup "category" d); [|done]. simpl.
  destruct (dict_lookup "question" d); [|done]. simpl.
  split_and!; try done. by rewrite !shuffle_Permutation.
Qed.

(** ** Further properties of the turn rotation *)

Lemma submit_answer_rejects_aux (w : World) (net : list fetch) (l : nat) :
  getitem (players (game w)) (round_player_index (gui w)) = Ok l →
  option_vars (gui w) = Some 0 →
  submit_answer net w = (Ok net, put_dialog WarnSelectOption w).
Proof.
  intros Hl Hk. unfold submit_answer. run. rewrite Hl. cbn [fst snd].
  rewrite Hk. cbn [from_option]. by rewrite decide_True by done.
Qed.

Lemma advance_empty (w : World) :
  players (game w) = [] → advance w = (Raise ZeroDivisionError, w).
Proof. intros Hnil. unfold advance. run. by rewrite Hnil. Qed.

Lemma advanced_in_range (w : World) :
  players (game w) ≠ [] → index_in_range (advanced w).
Proof.
  intros Hne. destruct (advanced_fields w) as (_ & Hps & Hi & _).
  unfold index_in_range. rewrite Hi, Hps. apply Z.mod_pos_bound.
  destruct (players (game w)); [done|simpl; lia].
Qed.

Lemma advanced_round (w : World) :
  round (game w) ≤ round (game (advanced w)).
Proof.
  destruct (advanced_fields w) as (_ & _ & _ & Hr). rewrite Hr.
  destruct (decide _); lia.
Qed.

Lemma index_in_range_nonempty (w : World) :
  index_in_range w → players (game w) ≠ [].
Proof.
  unfold index_in_range. intros Hi Hnil. rewrite Hnil in Hi. simpl in Hi. lia.
Qed.

(** What [ask_question] keeps, however the fetches end. *)
Lemma ask_question_keeps (net : list fetch) :
  ∀ w, index_in_range w →
    heap (ask_question net w).2 = heap w ∧
    players (game (ask_question net w).2) = players (game w) ∧
    round (game w) ≤ round (game (ask_question net w).2) ∧
    index_in_range (ask_question net w).2.
Proof.
  induction net as [|f net IH]; intros w Hi; [by split_and!|].
  cbn [ask_question]. run.
  destruct (getitem _ _) as [l|e|]; cbn [fst snd]; [|by split_and!..].
  destruct (get_questions_cases (DEFAULT_DIFFICULTY (cls (heap w !!! l))) f w)
    as [[q ->]|[[line ->]|(e & -> & _)]]; cbn [fst snd]; [by split_and!| |by split_and!].
  set (w1 := put_dialog _ _).
  assert (players (game w1) ≠ []) as Hne by by apply index_in_range_nonempty in Hi.
  rewrite (advance_run w1 Hne).
  destruct (IH (advanced w1) (advanced_in_range w1 Hne)) as (Hh & Hps & Hr & Hi').
  destruct (advanced_fields w1) as (Hh1 & Hps1 & _ & _).
  pose proof (advanced_round w1) as Hr1.
  split_and!.
  - by rewrite Hh, Hh1.
  - by rewrite Hps, Hps1.
  - etrans; [|exact Hr]. exact Hr1.
  - done.
Qed.

Lemma next_player_keeps (net : list fetch) (w : World) :
  index_in_range w →
  heap (next_player net w).2 = heap w ∧
  players (game (next_player net w).2) = players (game w) ∧
  round (game w) ≤ round (game (next_player net w).2) ∧
  index_in_range (next_player net w).2.
Proof.
  intros Hi. pose proof (index_in_range_nonempty w Hi) as Hne.
  unfold next_player. run. rewrite (advance_run w Hne).
  destruct (ask_question_keeps net (advanced w) (advanced_in_range w Hne))
    as (Hh & Hps & Hr & Hi').
  destruct (advanced_fields w) as (Hh1 & Hps1 & _ & _).
  pose proof (advanced_round w) as Hr1.
  split_and!; [by rewrite Hh, Hh1|by rewrite Hps, Hps1|lia|done].
Qed.

(** The only two things [submit_answer] can have done to the players. *)
Lemma submit_answer_heap (net : list fetch) (w : World) :
  heap (submit_answer net w).2 = heap w ∨
  ∃ l, getitem (players (game w)) (round_player_index (gui w)) = Ok l ∧
       heap (submit_answer net w).2 = <[l := add_score 1 (heap w !!! l)]> (heap w).
Proof.
  destruct (getitem (players (game w)) (round_player_index (gui w)))
    as [l|e|] eqn:Hl.
  2,3: left; unfold submit_answer; run; by rewrite Hl.
  destruct (option_vars (gui w)) as [k|] eqn:Hk.
  2: left; unfold submit_answer; run; rewrite Hl; cbn [fst snd]; by rewrite Hk.
  destruct (decide (k = 0)) as [->|Hk0].
  { left. by rewrite (submit_answer_rejects_aux w net l Hl Hk). }
  destruct (current_question (gui w)) as [q|] eqn:Hq.
  2:{ left. unfold submit_answer. run. rewrite Hl. cbn [fst snd]. rewrite Hk.
      cbn [from_option]. rewrite decide_False by done. by rewrite Hq. }
  destruct (getitem (options q) (k - 1)) as [chosen|e|] eqn:Hc.
  2,3: left; unfold submit_answer; run; rewrite Hl; cbn [fst snd]; rewrite Hk;
       cbn [from_option]; rewrite decide_False by done; rewrite Hq;
       cbn [from_option]; by rewrite Hc.
  rewrite (submit_answer_nonzero w net l k q chosen) by done.
  destruct (py_eq chosen (correct_answer q)).
  - right. exists l. split; [done|]. unfold after_scoring.
    by rewrite after_scoring_heap.
  - left. destruct (py_index _ _) as [idx|e|]; [|done..].
    destruct (getitem (options q) idx) as [answer|e|]; [|done..].
    unfold after_scoring. by rewrite after_scoring_heap.
Qed.

Lemma after_scoring_keeps (net : list fetch) (w : World) :
  index_in_range w →
  heap (after_scoring net w).2 = heap w ∧
  players (game (after_scoring net w).2) = players (game w) ∧
  round (game w) ≤ round (game (after_scoring net w).2) ∧
  index_in_range (after_scoring net w).2.
Proof.
  intros Hi. destruct (next_player_keeps net w Hi) as (Hh & Hps & Hr & Hi').
  unfold after_scoring, update_leaderboard. run.
  by destruct (next_player net w) as [[net'|e|] w1]; cbn [fst snd] in *.
Qed.

(** How a call of [submit_answer] can leave the world: as it was, with the
    warning added, or by way of [after_scoring] from a world that differs
    from the first in the players' objects and the message boxes only. *)
Lemma submit_answer_shape (net : list fetch) (w : World) :
  (submit_answer net w).2 = w ∨
  (submit_answer net w).2 = put_dialog WarnSelectOption w ∨
  ∃ w2, game w2 = game w ∧ gui w2 = gui w ∧
        submit_answer net w = after_scoring net w2.
Proof.
  destruct (getitem (players (game w)) (round_player_index (gui w)))
    as [l|e|] eqn:Hl.
  2,3: left; unfold submit_answer; run; by rewrite Hl.
  destruct (option_vars (gui w)) as [k|] eqn:Hk.
  2: left; unfold submit_answer; run; rewrite Hl; cbn [fst snd]; by rewrite Hk.
  destruct (decide (k = 0)) as [->|Hk0].
  { right. left. by rewrite (submit_answer_rejects_aux w net l Hl Hk). }
  destruct (current_question (gui w)) as [q|] eqn:Hq.
  2:{ left. unfold submit_answer. run. rewrite Hl. cbn [fst snd]. rewrite Hk.
      cbn [from_option]. rewrite decide_False by done. by rewrite Hq. }
  destruct (getitem (options q) (k - 1)) as [chosen|e|] eqn:Hc.
  2,3: left; unfold submit_answer; run; rewrite Hl; cbn [fst snd]; rewrite Hk;
       cbn [from_option]; rewrite decide_False by done; rewrite Hq;
       cbn [from_option]; by rewrite Hc.
  rewrite (submit_answer_nonzero w net l k q chosen) by done.
  destruct (py_eq chosen (correct_answer q)).
  - right. right. refine (ex_intro _ _ (conj _ (conj _ eq_refl))); done.
  - destruct (py_index _ _) as [idx|e|]; [|by left..].
    destruct (getitem (options q) idx) as [answer|e|]; [|by left..].
    right. right. refine (ex_intro _ _ (conj _ (conj _ eq_refl))); done.
Qed.

Lemma submit_answer_keeps (net : list fetch) (w : World) :
  index_in_range w →
  players (game (submit_answer net w).2) = players (game w) ∧
  round (game w) ≤ round (game (submit_answer net w).2) ∧
  index_in_range (submit_answer net w).2.
Proof.
  intros Hi.
  destruct (submit_answer_shape net w) as [->|[->|(w2 & Hg & Hu & ->)]];
    [by split_and!..|].
  assert (index_in_range w2) as Hi2
    by (unfold index_in_range; by rewrite Hg, Hu).
  destruct (after_scoring_keeps net w2 Hi2) as (_ & Hps & Hr & Hi').
  rewrite Hg in Hps, Hr. by split_and!.
Qed.

(** X10: in every state and however the call ends, [submit_answer] changes
    at most one player object, never lowers a score, raises one by at most
    1, and never changes a name or a class. *)
Theorem submit_answer_changes_one_score (net : list fetch) (w : World) :
  (∀ l, score (heap w !!! l) ≤ score (heap (submit_answer net w).2 !!! l)
          ≤ score (heap w !!! l) + 1) ∧
  (∀ l, name (heap (submit_answer net w).2 !!! l) = name (heap w !!! l) ∧
        cls (heap (submit_answer net w).2 !!! l) = cls (heap w !!! l)) ∧
  (∀ l1 l2, heap (submit_answer net w).2 !!! l1 ≠ heap w !!! l1 →
            heap (submit_answer net w).2 !!! l2 ≠ heap w !!! l2 → l1 = l2).
Proof.
  destruct (submit_answer_heap net w) as [->|(l & _ & ->)].
  - split_and!; [intros l; lia|done|done].
  - split_and!.
    + intros l'. destruct (decide (l' = l)) as [->|Hne].
      * rewrite lookup_total_insert_eq. simpl. lia.
      * rewrite lookup_total_insert_ne by done. lia.
    + intros l'. destruct (decide (l' = l)) as [->|Hne].
      * by rewrite lookup_total_insert_eq.
      * by rewrite lookup_total_insert_ne by done.
    + intros l1 l2 H1 H2.
      destruct (decide (l1 = l)) as [->|Hne1];
        [|by rewrite lookup_total_insert_ne in H1 by done].
      destruct (decide (l2 = l)) as [->|Hne2]; [done|].
      by rewrite lookup_total_insert_ne in H2 by done.
Qed.

(** X11: from a state whose index points into the registry, a call of
    [next_player] or [submit_answer], however it ends, leaves the registry
    list as it is (nobody is added, removed or moved), never lowers the
    round, and leaves the index pointing into the registry; [next_player]
    changes no player object. *)
Theorem turn_keeps_registry (net : list fetch) (w : World) :
  index_in_range w →
  (heap (next_player net w).2 = heap w ∧
   players (game (next_player net w).2) = players (game w) ∧
   round (game w) ≤ round (game (next_player net w).2) ∧
   index_in_range (next_player net w).2) ∧
  (players (game (submit_answer net w).2) = players (game w) ∧
   round (game w) ≤ round (game (submit_answer net w).2) ∧
   index_in_range (submit_answer net w).2).
Proof.
  intros Hi. split; [by apply next_player_keeps|by apply submit_answer_keeps].
Qed.

Lemma turn_keeps_registry_witness :
  index_in_range (three_players_selecting 3) ∧
  (heap (next_player [fetch_down; fetch_good] (three_players_selecting 3)).2
     = heap (three_players_selecting 3) ∧
   players (game (next_player [fetch_down; fetch_good]
                    (three_players_selecting 3)).2)
     = players (game (three_players_selecting 3)) ∧
   round (game (three_players_selecting 3))
     ≤ round (game (next_player [fetch_down; fetch_good]
                      (three_players_selecting 3)).2) ∧
   index_in_range (next_player [fetch_down; fetch_good]
                     (three_players_selecting 3)).2) ∧
  (players (game (submit_answer [fetch_down; fetch_good]
                    (three_players_selecting 3)).2)
     = players (game (three_players_selecting 3)) ∧
   round (game (three_players_selecting 3))
     ≤ round (game (submit_answer [fetch_down; fetch_good]
                      (three_players_selecting 3)).2) ∧
   index_in_range (submit_answer [fetch_down; fetch_good]
                     (three_players_selecting 3)).2).
Proof.
  assert (index_in_range (three_players_selecting 3)) as Hi
    by (vm_compute; split; [discriminate|reflexivity]).
  split; [exact Hi|].
  exact (turn_keeps_registry [fetch_down; fetch_good]
           (three_players_selecting 3) Hi).
Defined.

Lemma advanced_dialogs (w : World) : dialogs (advanced w) = dialogs w.
Proof. unfold advanced. by destruct (decide _). Qed.

(** X14: with nobody registered, [next_player] raises [ZeroDivisionError],
    [ask_question] and [submit_answer] raise [IndexError], each before
    changing anything, and [end_game] shows an empty final leaderboard. *)
Theorem empty_registry_behaviour (w : World) (net : list fetch) :
  players (game w) = [] →
  next_player net w = (Raise ZeroDivisionError, w) ∧
  submit_answer net w = (Raise IndexError, w) ∧
  (∀ f rest, ask_question (f :: rest) w = (Raise IndexError, w)) ∧
  ∃ w', end_game w = (Ok (), w') ∧
        dialogs w' = dialogs w ++ [InfoFinalLeaderboard []] ∧
        destroyed (gui w') = true.
Proof.
  intros Hnil. split_and!.
  - unfold next_player. run. by rewrite (advance_empty w Hnil).
  - unfold submit_answer. run. by rewrite Hnil, getitem_nil.
  - intros f rest. cbn [ask_question]. run. by rewrite Hnil, getitem_nil.
  - eexists. unfold end_game, scoreboard. run. rewrite Hnil. done.
Qed.

Lemma empty_registry_behaviour_witness :
  players (game new_world) = [] ∧
  next_player [fetch_good] new_world = (Raise ZeroDivisionError, new_world) ∧
  submit_answer [fetch_good] new_world = (Raise IndexError, new_world) ∧
  (∀ f rest, ask_question (f :: rest) new_world = (Raise IndexError, new_world)) ∧
  ∃ w', end_game new_world = (Ok (), w') ∧
        dialogs w' = dialogs new_world ++ [InfoFinalLeaderboard []] ∧
        destroyed (gui w') = true.
Proof.
  split; [reflexivity|].
  exact (empty_registry_behaviour new_world [fetch_good] eq_refl).
Defined.

(** ** Further properties of the question display and the leaderboard *)

Lemma buttons_lookup (opts : list pyval) (i : nat) (o : pyval) (v : Z) :
  zip opts (Z.of_nat <$> seq 1 (length opts)) !! i = Some (o, v) ↔
  opts !! i = Some o ∧ v = Z.of_nat i + 1.
Proof.
  rewrite lookup_zip_Some, list_lookup_fmap. split.
  - intros [Ho Hv]. split; [done|].
    destruct (seq 1 (length opts) !! i) as [j|] eqn:Hj; [|done].
    apply lookup_seq in Hj as [-> _]. injection Hv as <-. lia.
  - intros [Ho ->]. split; [done|].
    rewrite lookup_seq_lt by (by eapply lookup_lt_Some). simpl. f_equal. lia.
Qed.

(** X15: when the fetch brings a question, [ask_question] stores it, labels
    it with the current player's name, and makes one radio button per
    option: the button showing [options[i]] carries the value [i + 1].
    Nothing is selected yet, so a [submit_answer] right away only shows the
    warning. *)
Theorem ask_question_shows_question
    (w : World) (f : fetch) (rest : list fetch) (q : Question) (l : nat) :
  fetch_yields f q →
  getitem (players (game w)) (round_player_index (gui w)) = Ok l →
  ∃ w', ask_question (f :: rest) w = (Ok rest, w') ∧
    current_question (gui w') = Some q ∧
    question_label (gui w')
      = Some (name (heap w !!! l), category q, question_text q) ∧
    (∀ (i : nat) o v,
       option_buttons (gui w') !! i = Some (o, v) ↔
       options q !! i = Some o ∧ v = Z.of_nat i + 1) ∧
    option_vars (gui w') = Some 0 ∧
    (∀ net, submit_answer net w' = (Ok net, put_dialog WarnSelectOption w')).
Proof.
  intros Hq Hl. exists (asked q l w).
  split; [by apply ask_question_yields|]. split_and!; try done.
  - intros i o v. apply buttons_lookup.
  - intros net. by apply (submit_answer_rejects_aux _ net l).
Qed.

Lemma ask_question_shows_question_witness :
  fetch_yields fetch_good sample_question ∧
  getitem (players (game three_players))
          (round_player_index (gui three_players)) = Ok 0%nat ∧
  ∃ w', ask_question (fetch_good :: []) three_players = (Ok [], w') ∧
    current_question (gui w') = Some sample_question ∧
    question_label (gui w')
      = Some (name (heap three_players !!! 0%nat),
              category sample_question, question_text sample_question) ∧
    (∀ (i : nat) o v,
       option_buttons (gui w') !! i = Some (o, v) ↔
       options sample_question !! i = Some o ∧ v = Z.of_nat i + 1) ∧
    option_vars (gui w') = Some 0 ∧
    (∀ net, submit_answer net w' = (Ok net, put_dialog WarnSelectOption w')).
Proof.
  split_and!; [exact fetch_good_yields|reflexivity|].
  exact (ask_question_shows_question three_players fetch_good []
           sample_question 0%nat fetch_good_yields eq_refl).
Defined.

Lemma scoreboard_after_point (h : gmap nat Player) (ps : list nat)
    (i : nat) (l : nat) :
  NoDup ps → ps !! i = Some l →
  (λ l', (name (<[l := add_score 1 (h !!! l)]> h !!! l'),
          score (<[l := add_score 1 (h !!! l)]> h !!! l'))) <$> ps
  = <[i := (name (h !!! l), score (h !!! l) + 1)]>
      ((λ l', (name (h !!! l'), score (h !!! l'))) <$> ps).
Proof.
  intros Hnd Hi. apply list_eq. intros j.
  rewrite list_lookup_fmap.
  destruct (decide (j = i)) as [->|Hne].
  - rewrite list_lookup_insert_eq
      by (rewrite length_fmap; by eapply lookup_lt_Some).
    rewrite Hi. simpl. by rewrite lookup_total_insert_eq.
  - rewrite list_lookup_insert_ne by done. rewrite list_lookup_fmap.
    destruct (ps !! j) as [l'|] eqn:Hj; [|done]. simpl.
    assert (l' ≠ l) as Hl'.
    { intros ->. apply Hne. by eapply NoDup_lookup. }
    by rewrite lookup_total_insert_ne.
Qed.

(** X16: after a correct answer, once the next question has arrived, the
    leaderboard shows the registry in order with one more point in the line
    of the player who answered and every other line as before; the round
    label shows the current round and one "Correct!" box was shown. *)
Theorem submit_answer_updates_leaderboard
    (w : World) (f : fetch) (rest : list fetch) (q' : Question) (l : nat)
    (q : Question) (k : Z) (chosen : pyval) :
  registered w → index_in_range w →
  players (game w) !! Z.to_nat (round_player_index (gui w)) = Some l →
  option_vars (gui w) = Some k →
  current_question (gui w) = Some q →
  options q !! Z.to_nat (k - 1) = Some chosen → 1 ≤ k →
  py_eq chosen (correct_answer q) = true →
  fetch_yields f q' →
  ∃ w', submit_answer (f :: rest) w = (Ok rest, w') ∧
    leaderboard_text (gui w')
      = <[Z.to_nat (round_player_index (gui w))
            := (name (heap w !!! l), score (heap w !!! l) + 1)]> (scoreboard w) ∧
    leaderboard_text (gui w') = scoreboard w' ∧
    round_label (gui w') = round (game w') ∧
    dialogs w' = dialogs w ++ [InfoCorrect].
Proof.
  intros [Hnd _] Hi Hl Hk Hq Hchosen Hk1 Heq Hf.
  destruct (getitem_Some (players (game w)) (round_player_index (gui w)) Hi)
    as (l0 & Hget & Hl0).
  assert (l0 = l) as -> by congruence.
  assert (getitem (options q) (k - 1) = Ok chosen) as Hc.
  { destruct (getitem_Some (options q) (k - 1)) as (x & Hx & Hx').
    - apply lookup_lt_Some in Hchosen. lia.
    - congruence. }
  rewrite (submit_answer_nonzero w (f :: rest) l k q chosen) by (done || lia).
  rewrite Heq. unfold after_scoring.
  set (w1 := on_heap _ _).
  assert (players (game w1) ≠ []) as Hne by by apply index_in_range_nonempty in Hi.
  destruct (next_player_yields w1 f rest q' Hne Hf) as [l2 Hstep].
  unfold update_leaderboard. run. rewrite Hstep.
  eexists. split; [reflexivity|].
  destruct (advanced_fields w1) as (Hh & Hps & _ & _).
  assert (scoreboard (asked q' l2 (advanced w1))
          = <[Z.to_nat (round_player_index (gui w))
                := (name (heap w !!! l), score (heap w !!! l) + 1)]>
              (scoreboard w)) as Hboard.
  { unfold scoreboard.
    change (heap (asked q' l2 (advanced w1))) with (heap (advanced w1)).
    change (players (game (asked q' l2 (advanced w1))))
      with (players (game (advanced w1))).
    rewrite Hh, Hps. by apply scoreboard_after_point. }
  split_and!; try done.
  cbn. by rewrite advanced_dialogs.
Qed.

Lemma three_players_selecting_registered (k : Z) :
  registered (three_players_selecting k).
Proof.
  assert (players (game (three_players_selecting k)) = [0; 1; 2]%nat) as Hps
    by reflexivity.
  split; rewrite Hps.
  - apply (bool_decide_unpack _). by vm_compute.
  - intros l Hl.
    repeat (apply elem_of_cons in Hl as [->|Hl];
            [vm_compute; by eexists|]).
    by apply elem_of_nil in Hl.
Qed.

Lemma submit_answer_updates_leaderboard_witness :
  registered (three_players_selecting 3) ∧
  index_in_range (three_players_selecting 3) ∧
  players (game (three_players_selecting 3))
    !! Z.to_nat (round_player_index (gui (three_players_selecting 3)))
    = Some 0%nat ∧
  option_vars (gui (three_players_selecting 3)) = Some 3 ∧
  current_question (gui (three_players_selecting 3)) = Some sample_question ∧
  options sample_question !! Z.to_nat (3 - 1) = Some (PStr "C") ∧
  1 ≤ 3 ∧
  py_eq (PStr "C") (correct_answer sample_question) = true ∧
  fetch_yields fetch_good sample_question ∧
  ∃ w', submit_answer (fetch_good :: []) (three_players_selecting 3)
        = (Ok [], w') ∧
    leaderboard_text (gui w')
      = <[Z.to_nat (round_player_index (gui (three_players_selecting 3)))
            := (name (heap (three_players_selecting 3) !!! 0%nat),
                score (heap (three_players_selecting 3) !!! 0%nat) + 1)]>
          (scoreboard (three_players_selecting 3)) ∧
    leaderboard_text (gui w') = scoreboard w' ∧
    round_label (gui w') = round (game w') ∧
    dialogs w' = dialogs (three_players_selecting 3) ++ [InfoCorrect].
Proof.
  assert (index_in_range (three_players_selecting 3)) as Hi
    by (vm_compute; split; [discriminate|reflexivity]).
  assert (1 ≤ 3) as H13 by lia.
  split_and!;
    [exact (three_players_selecting_registered 3)|exact Hi|reflexivity
    |reflexivity|reflexivity|reflexivity|exact H13|reflexivity
    |exact fetch_good_yields|].
  exact (submit_answer_updates_leaderboard (three_players_selecting 3)
           fetch_good [] sample_question 0%nat sample_question 3 (PStr "C")
           (three_players_selecting_registered 3) Hi eq_refl eq_refl eq_refl
           eq_refl H13 eq_refl fetch_good_yields).
Defined.

(** ** Further properties of [end_game] *)

(** X17: [end_game] always returns.  It shows one final leaderboard whose
    lines are the players' names and scores in descending order of score,
    one line per registry entry; the registry itself is left in that order
    (sorted in place), no score is changed and the window is closed. *)
Theorem end_game_final_leaderboard (w : World) :
  ∃ w' lines,
    end_game w = (Ok (), w') ∧
    dialogs w' = dialogs w ++ [InfoFinalLeaderboard lines] ∧
    lines ≡ₚ scoreboard w ∧
    StronglySorted (λ a b : string * Z, b.2 ≤ a.2) lines ∧
    lines = scoreboard w' ∧
    players (game w') ≡ₚ players (game w) ∧
    heap w' = heap w ∧ round (game w') = round (game w) ∧
    destroyed (gui w') = true.
Proof.
  destruct (insertion_sort_ranked (λ l, score (heap w !!! l)) (players (game w)))
    as (out & Hrun & Hperm & Hsorted & _).
  eexists _, (scoreboard (on_game (with_players out) w)).
  unfold end_game. run. rewrite Hrun. cbn.
  split_and!; try done.
  - unfold scoreboard. cbn. by rewrite Hperm.
  - unfold scoreboard. cbn.
    eapply StronglySorted_fmap; [|exact Hsorted].
    intros l1 l2 Hd. exact Hd.
Qed.

(** ** Further properties of [ask_question] *)

Lemma advance_requests (w : World) : requests (advance w).2 = requests w.
Proof.
  unfold advance. run. destruct (decide _); cbn; [done|].
  by destruct (decide _).
Qed.

Lemma ask_question_requests (net : list fetch) :
  ∀ w, ∃ more, requests (ask_question net w).2 = requests w ++ more.
Proof.
  induction net as [|f net IH]; intros w.
  { exists []. by rewrite (right_id_L [] (++)). }
  cbn [ask_question]. run.
  destruct (getitem _ _) as [l|e|]; cbn [fst snd].
  2,3: exists []; by rewrite (right_id_L [] (++)).
  destruct (get_questions_cases (DEFAULT_DIFFICULTY (cls (heap w !!! l))) f w)
    as [[q ->]|[[line ->]|(e & -> & _)]]; cbn [fst snd]; [by eexists| |by eexists].
  set (w1 := put_dialog _ _).
  pose proof (advance_requests w1) as Ha.
  destruct (advance w1) as [[[]|e|] w2]; cbn [fst snd] in *.
  - destruct (IH w2) as [more Hmore]. rewrite Hmore, Ha. cbn.
    rewrite <- (assoc_L (++)). by eexists.
  - rewrite Ha. by eexists.
  - rewrite Ha. by eexists.
Qed.

(** X18: the first request [ask_question] sends is made at the current
    player's difficulty, "easy" for a child and "medium" for an adult, with
    amount 1, no category and type "multiple"; whatever follows is only
    appended to the log. *)
Theorem ask_question_requests_difficulty
    (w : World) (f : fetch) (rest : list fetch) (l : nat) :
  getitem (players (game w)) (round_player_index (gui w)) = Ok l →
  ∃ r more,
    requests (ask_question (f :: rest) w).2 = requests w ++ r :: more ∧
    req_difficulty r
      = match cls (heap w !!! l) with
        | ChildPlayer => "easy"
        | AdultPlayer => "medium"
        end ∧
    req_amount r = 1 ∧ req_category r = None ∧ req_type r = "multiple".
Proof.
  intros Hl.
  exists (default_params (DEFAULT_DIFFICULTY (cls (heap w !!! l)))).
  assert (∃ more, requests (ask_question (f :: rest) w).2
            = requests w
              ++ default_params (DEFAULT_DIFFICULTY (cls (heap w !!! l))) :: more)
    as [more Hmore].
  { cbn [ask_question]. run. rewrite Hl. cbn [fst snd].
    destruct (get_questions_cases (DEFAULT_DIFFICULTY (cls (heap w !!! l))) f w)
      as [[q ->]|[[line ->]|(e & -> & _)]]; cbn [fst snd];
      [by exists []| |by exists []].
    set (w1 := put_dialog _ _).
    pose proof (advance_requests w1) as Ha.
    destruct (advance w1) as [[[]|e|] w2]; cbn [fst snd] in *.
    - destruct (ask_question_requests rest w2) as [more Hmore].
      rewrite Hmore, Ha. cbn. rewrite <- (assoc_L (++)). by eexists.
    - rewrite Ha. by exists [].
    - rewrite Ha. by exists []. }
  exists more. by split_and!.
Qed.

Lemma ask_question_requests_difficulty_witness :
  getitem (players (game three_players))
          (round_player_index (gui three_players)) = Ok 0%nat ∧
  ∃ r more,
    requests (ask_question (fetch_down :: [fetch_good]) three_players).2
      = requests three_players ++ r :: more ∧
    req_difficulty r
      = match cls (heap three_players !!! 0%nat) with
        | ChildPlayer => "easy"
        | AdultPlayer => "medium"
        end ∧
    req_amount r = 1 ∧ req_category r = None ∧ req_type r = "multiple".
Proof.
  split; [reflexivity|].
  exact (ask_question_requests_difficulty three_players fetch_down
           [fetch_good] 0%nat eq_refl).
Defined.

(** ** The registry stays well formed *)

Lemma registered_same_players (w w' : World) :
  players (game w') = players (game w) →
  (∀ l, is_Some (heap w !! l) → is_Some (heap w' !! l)) →
  registered w → registered w'.
Proof.
  intros Hps Hh [Hnd Hlive]. split; rewrite Hps; [done|].
  intros l Hl. by apply Hh, Hlive.
Qed.

(** X19: the registry never holds the same object twice nor a dead
    reference: [add_player] (with any type), [next_player], [submit_answer]
    and [end_game] all keep this, starting from the empty game. *)
Theorem registry_stays_registered
    (w : World) (nm t : string) (net : list fetch) :
  registered new_world ∧
  (registered w →
   registered (add_player nm t w).2 ∧
   registered (end_game w).2 ∧
   (index_in_range w →
    registered (next_player net w).2 ∧ registered (submit_answer net w).2)).
Proof.
  split.
  { split; [constructor|]. intros l Hl. by apply elem_of_nil in Hl. }
  intros Hreg. split_and!.
  - by apply add_player_registered.
  - destruct (end_game_ranks w) as (w' & -> & Hh & Hperm & _).
    destruct Hreg as [Hnd Hlive]. split; cbn.
    + by rewrite Hperm.
    + intros l Hl. rewrite Hh. apply Hlive. by rewrite <- Hperm.
  - intros Hi. split.
    + destruct (next_player_keeps net w Hi) as (Hh & Hps & _).
      eapply registered_same_players; [exact Hps| |done].
      intros l. by rewrite Hh.
    + destruct (submit_answer_keeps net w Hi) as (Hps & _).
      eapply registered_same_players; [exact Hps| |done].
      intros l Hl.
      destruct (submit_answer_heap net w) as [->|(l0 & _ & ->)]; [done|].
      apply lookup_insert_is_Some'. by right.
Qed.

Lemma registry_stays_registered_witness :
  registered new_world ∧
  registered (three_players_selecting 3) ∧
  registered (add_player "Dora" "adult" (three_players_selecting 3)).2 ∧
  registered (end_game (three_players_selecting 3)).2 ∧
  index_in_range (three_players_selecting 3) ∧
  registered (next_player [fetch_good] (three_players_selecting 3)).2 ∧
  registered (submit_answer [fetch_good] (three_players_selecting 3)).2.
Proof.
  assert (index_in_range (three_players_selecting 3)) as Hi
    by (vm_compute; split; [discriminate|reflexivity]).
  destruct (registry_stays_registered (three_players_selecting 3)
              "Dora" "adult" [fetch_good]) as [Hnew Hkeep].
  destruct (Hkeep (three_players_selecting_registered 3)) as (Ha & He & Hturn).
  destruct (Hturn Hi) as [Hn Hs].
  split_and!;
    [exact Hnew|exact (three_players_selecting_registered 3)|exact Ha|exact He
    |exact Hi|exact Hn|exact Hs].
Defined.

(** ** Further properties of [submit_answer]: a wrong answer *)

Lemma py_index_Ok (l : list pyval) (x : pyval) :
  ∀ i, py_index l x = Ok i →
    0 ≤ i ∧ ∃ y, l !! Z.to_nat i = Some y ∧ py_eq y x = true.
Proof.
  induction l as [|y l IH]; intros i; simpl; [done|].
  destruct (py_eq y x) eqn:Hy.
  - intros [= <-]. split; [done|]. by exists y.
  - destruct (py_index l x) as [j| |]; simpl; [|done..].
    intros [= <-]. destruct (IH j eq_refl) as (Hj & z & Hz & Hzx).
    split; [lia|]. exists z. split; [|done].
    replace (Z.to_nat (j + 1)) with (S (Z.to_nat j)) by lia. done.
Qed.

Lemma py_index_absent (l : list pyval) (x : pyval) :
  (∀ y, y ∈ l → py_eq y x = false) →
  py_index l x = Raise (ValueError "x is not in list").
Proof.
  induction l as [|y l IH]; intros Hall; simpl; [done|].
  rewrite (Hall y) by set_solver. rewrite IH; [done|].
  intros z Hz. apply Hall. set_solver.
Qed.

Lemma py_index_present (l : list pyval) (x : pyval) :
  (∃ y, y ∈ l ∧ py_eq y x = true) → ∃ i, py_index l x = Ok i.
Proof.
  induction l as [|y l IH]; intros (z & Hz & Hzx); simpl.
  { by apply elem_of_nil in Hz. }
  destruct (py_eq y x) eqn:Hy; [by eexists|].
  destruct IH as [i ->]; [|by eexists].
  apply elem_of_cons in Hz as [->|Hz]; [congruence|]. by exists z.
Qed.

Lemma advance_dialogs (w : World) : dialogs (advance w).2 = dialogs w.
Proof.
  unfold advance. run. destruct (decide _); cbn; [done|].
  by destruct (decide _).
Qed.

Lemma ask_question_dialogs (net : list fetch) :
  ∀ w, ∃ more, dialogs (ask_question net w).2 = dialogs w ++ more.
Proof.
  induction net as [|f net IH]; intros w.
  { exists []. by rewrite (right_id_L [] (++)). }
  cbn [ask_question]. run.
  destruct (getitem _ _) as [l|e|]; cbn [fst snd].
  2,3: exists []; by rewrite (right_id_L [] (++)).
  destruct (get_questions_cases (DEFAULT_DIFFICULTY (cls (heap w !!! l))) f w)
    as [[q ->]|[[line ->]|(e & -> & _)]]; cbn [fst snd].
  1,3: exists []; by rewrite (right_id_L [] (++)).
  set (w1 := put_dialog _ _).
  pose proof (advance_dialogs w1) as Ha.
  destruct (advance w1) as [[[]|e|] w2]; cbn [fst snd] in *.
  - destruct (IH w2) as [more Hmore]. rewrite Hmore, Ha. cbn.
    rewrite <- (assoc_L (++)). by eexists.
  - rewrite Ha. by eexists.
  - rewrite Ha. by eexists.
Qed.

Lemma after_scoring_dialogs (net : list fetch) (w : World) :
  ∃ more, dialogs (after_scoring net w).2 = dialogs w ++ more.
Proof.
  unfold after_scoring, next_player, update_leaderboard. run.
  pose proof (advance_dialogs w) as Ha.
  destruct (advance w) as [[[]|e|] w1]; cbn [fst snd] in *.
  2,3: exists []; by rewrite Ha, (right_id_L [] (++)).
  destruct (ask_question_dialogs net w1) as [more Hmore].
  exists more. rewrite <- Ha, <- Hmore.
  by destruct (ask_question net w1) as [[net'|e|] w2].
Qed.

(** X20: after a wrong answer the next message box names the correct
    answer: an option that equals [correct_answer]; no score changes.
    If no option equals it, [.index] raises [ValueError] and the call stops
    there: nothing has changed and the turn has not moved on. *)
Theorem submit_answer_wrong_answer
    (w : World) (net : list fetch) (l : nat) (q : Question) (k : Z)
    (chosen : pyval) :
  getitem (players (game w)) (round_player_index (gui w)) = Ok l →
  option_vars (gui w) = Some k → k ≠ 0 →
  current_question (gui w) = Some q →
  getitem (options q) (k - 1) = Ok chosen →
  py_eq chosen (correct_answer q) = false →
  ((∃ o, o ∈ options q ∧ py_eq o (correct_answer q) = true) →
     ∃ answer more,
       answer ∈ options q ∧ py_eq answer (correct_answer q) = true ∧
       dialogs (submit_answer net w).2 = dialogs w ++ InfoWrong answer :: more ∧
       heap (submit_answer net w).2 = heap w) ∧
  ((∀ o, o ∈ options q → py_eq o (correct_answer q) = false) →
     ∃ msg, submit_answer net w = (Raise (ValueError msg), w)).
Proof.
  intros Hl Hk Hk0 Hq Hc Hneq.
  rewrite (submit_answer_nonzero w net l k q chosen) by done.
  rewrite Hneq. split.
  - intros Hex. destruct (py_index_present _ _ Hex) as [i Hi]. rewrite Hi.
    destruct (py_index_Ok _ _ i Hi) as (Hi0 & answer & Hans & Heq).
    destruct (getitem_Some (options q) i) as (a' & Ha' & Ha'').
    { apply lookup_lt_Some in Hans. lia. }
    assert (a' = answer) as -> by congruence.
    rewrite Ha'.
    destruct (after_scoring_dialogs net (put_dialog (InfoWrong answer) w))
      as [more Hmore].
    exists answer, more. split_and!; [by eapply list_elem_of_lookup_2|done| |].
    + rewrite Hmore. cbn. by rewrite <- (assoc_L (++)).
    + unfold after_scoring. by rewrite after_scoring_heap.
  - intros Hall. rewrite (py_index_absent _ _ Hall). by eexists.
Qed.

Lemma submit_answer_wrong_answer_witness :
  getitem (players (game (three_players_selecting 1)))
          (round_player_index (gui (three_players_selecting 1))) = Ok 0%nat ∧
  option_vars (gui (three_players_selecting 1)) = Some 1 ∧ 1 ≠ 0 ∧
  current_question (gui (three_players_selecting 1)) = Some sample_question ∧
  getitem (options sample_question) (1 - 1) = Ok (PStr "D") ∧
  py_eq (PStr "D") (correct_answer sample_question) = false ∧
  (∃ o, o ∈ options sample_question ∧
        py_eq o (correct_answer sample_question) = true) ∧
  ∃ answer more,
    answer ∈ options sample_question ∧
    py_eq answer (correct_answer sample_question) = true ∧
    dialogs (submit_answer [fetch_good] (three_players_selecting 1)).2
      = dialogs (three_players_selecting 1) ++ InfoWrong answer :: more ∧
    heap (submit_answer [fetch_good] (three_players_selecting 1)).2
      = heap (three_players_selecting 1).
Proof.
  assert (1 ≠ 0) as H10 by lia.
  assert (∃ o, o ∈ options sample_question ∧
               py_eq o (correct_answer sample_question) = true) as Hex.
  { exists (PStr "C"). split; [|reflexivity].
    apply (list_elem_of_lookup_2 _ 2%nat). reflexivity. }
  split_and!; [reflexivity|reflexivity|exact H10|reflexivity|reflexivity
              |reflexivity|exact Hex|].
  destruct (submit_answer_wrong_answer (three_players_selecting 1) [fetch_good]
              0%nat sample_question 1 (PStr "D")
              eq_refl eq_refl H10 eq_refl eq_refl eq_refl) as [Hshow _].
  exact (Hshow Hex).
Defined.

(** ** The setup dialogue *)

Section SetupProofs.
Context (py_int : string → option Z) (strip_lower : string → string).

Lemma read_num_players_Ok (stdin : list string) :
  ∀ shown n c',
    read_num_players py_int stdin shown = (Ok n, c') →
    0 < n ∧
    ∃ bad s,
      stdin = bad ++ s :: c'.1 ∧ py_int s = Some n ∧
      Forall (λ b, ∀ m, py_int b = Some m → m ≤ 0) bad ∧
      length c'.2 = (length shown + 2 * length bad + 1)%nat.
Proof.
  induction stdin as [|s stdin IH]; intros shown n c'; cbn [read_num_players].
  { done. }
  destruct (py_int s) as [m|] eqn:Hs.
  - destruct (decide (0 < m)) as [Hm|Hm].
    + intros [= <- <-]. split; [done|]. exists [], s. cbn.
      split_and!; [done|done|constructor|].
      rewrite length_app. simpl. lia.
    + intros Hrun. destruct (IH _ _ _ Hrun) as (Hn & bad & s' & -> & Hs' & Hbad & Hlen).
      split; [done|]. exists (s :: bad), s'. split_and!; [done|done| |].
      * constructor; [|done]. intros m' Hm'. rewrite Hs in Hm'.
        injection Hm' as <-. lia.
      * rewrite Hlen, length_app. simpl. lia.
  - intros Hrun. destruct (IH _ _ _ Hrun) as (Hn & bad & s' & -> & Hs' & Hbad & Hlen).
    split; [done|]. exists (s :: bad), s'. split_and!; [done|done| |].
    + constructor; [|done]. intros m' Hm'. by rewrite Hs in Hm'.
    + rewrite Hlen, length_app. simpl. lia.
Qed.

Lemma read_num_players_no_raise (stdin : list string) :
  ∀ shown e c', read_num_players py_int stdin shown ≠ (Raise e, c').
Proof.
  induction stdin as [|s stdin IH]; intros shown e c'; cbn [read_num_players].
  { done. }
  destruct (py_int s) as [m|]; [|apply IH].
  destruct (decide (0 < m)); [done|apply IH].
Qed.

Lemma read_player_type_Ok (nm : string) (stdin : list string) :
  ∀ shown t c',
    read_player_type strip_lower nm stdin shown = (Ok t, c') →
    t = "child" ∨ t = "adult".
Proof.
  induction stdin as [|s stdin IH]; intros shown t c'; cbn [read_player_type].
  { done. }
  destruct (decide _) as [Ht|Ht]; [by intros [= <- <-]|apply IH].
Qed.

Lemma read_player_type_no_raise (nm : string) (stdin : list string) :
  ∀ shown e c', read_player_type strip_lower nm stdin shown ≠ (Raise e, c').
Proof.
  induction stdin as [|s stdin IH]; intros shown e c'; cbn [read_player_type].
  { done. }
  destruct (decide _); [done|apply IH].
Qed.

Lemma add_player_fresh_game (nm t : string) (w : World) :
  t = "child" ∨ t = "adult" → fresh_game w →
  ∃ w', add_player nm t w = (Ok (), w') ∧ fresh_game w' ∧
        length (players (game w')) = S (length (players (game w))).
Proof.
  intros Ht (Hreg & Hround & Hzero).
  assert (∃ c, class_of_type t = Some c) as [c Hc]
    by (destruct Ht as [-> | ->]; by eexists).
  pose proof (add_player_registered nm t w Hreg) as Hreg'.
  rewrite (add_player_run nm t c w Hc) in Hreg' |- *.
  eexists. split; [done|]. split; [|cbn; rewrite length_app; simpl; lia].
  split_and!; [done|done|]. cbn.
  intros l [Hl| ->%list_elem_of_singleton]%elem_of_app.
  - rewrite lookup_total_insert_ne; [by apply Hzero|].
    intros <-. destruct Hreg as [_ Hlive]. apply Hlive, elem_of_dom in Hl.
    by apply is_fresh in Hl.
  - by rewrite lookup_total_insert_eq.
Qed.

Lemma collect_players_spec (idxs : list Z) :
  ∀ c w r c' w',
    fresh_game w →
    collect_players strip_lower idxs c w = (r, c', w') →
    (∀ e, r ≠ Raise e) ∧
    (r = Ok () →
       fresh_game w' ∧
       length (players (game w'))
         = (length (players (game w)) + length idxs)%nat).
Proof.
  induction idxs as [|i idxs IH]; intros c w r c' w' Hw; cbn [collect_players].
  { intros [= <- <- <-]. split; [done|]. intros _. split; [done|]. simpl. lia. }
  destruct c.1 as [|nm stdin'].
  { intros [= <- <- <-]. by split. }
  destruct (read_player_type strip_lower nm stdin' _) as [[t|e|] c1] eqn:Ht.
  - destruct (add_player_fresh_game nm t w) as (w1 & -> & Hw1 & Hlen);
      [by eapply read_player_type_Ok|done|].
    intros Hrun. destruct (IH _ _ _ _ _ Hw1 Hrun) as [Hne Hok].
    split; [done|]. intros Hr. destruct (Hok Hr) as [Hf Hl].
    split; [done|]. rewrite Hl, Hlen. simpl. lia.
  - by apply read_player_type_no_raise in Ht.
  - intros [= <- <- <-]. by split.
Qed.

Lemma new_world_fresh_game : fresh_game new_world.
Proof.
  split_and!; [|done|].
  - split; [constructor|]. intros l Hl. by apply elem_of_nil in Hl.
  - intros l Hl. by apply elem_of_nil in Hl.
Qed.

Lemma read_num_players_skips (bad : list string) :
  ∀ stdin shown,
    Forall (turned_down py_int) bad →
    read_num_players py_int (bad ++ stdin) shown
    = read_num_players py_int stdin (shown ++ complaints py_int bad).
Proof.
  induction bad as [|b bad IH]; intros stdin shown Hbad.
  { unfold complaints. simpl. by rewrite (right_id_L [] (++)). }
  apply Forall_cons in Hbad as [Hb Hbad].
  cbn [app read_num_players]. unfold complaints. cbn [mbind list_bind].
  fold (complaints py_int bad).
  destruct (py_int b) as [m|] eqn:Hm.
  - rewrite decide_False by (specialize (Hb m Hm); lia).
    rewrite IH by done. by rewrite <- (assoc_L (++)).
  - rewrite IH by done. by rewrite <- (assoc_L (++)).
Qed.

Lemma read_num_players_accepts (bad : list string) (s : string)
    (rest : list string) (n : Z) (shown : list console_line) :
  Forall (turned_down py_int) bad → py_int s = Some n → 0 < n →
  read_num_players py_int (bad ++ s :: rest) shown
  = (Ok n, (rest, shown ++ complaints py_int bad ++ [PromptNumPlayers])).
Proof.
  intros Hbad Hs Hn. rewrite read_num_players_skips by done.
  cbn [read_num_players]. rewrite Hs, decide_True by done.
  by rewrite <- (assoc_L (++)).
Qed.

Lemma read_num_players_waits (bad : list string) (shown : list console_line) :
  Forall (turned_down py_int) bad →
  read_num_players py_int bad shown
  = (Pending, ([], shown ++ complaints py_int bad ++ [PromptNumPlayers])).
Proof.
  intros Hbad.
  rewrite <- (right_id_L [] (++) bad) at 1.
  rewrite read_num_players_skips by done.
  cbn [read_num_players]. by rewrite <- (assoc_L (++)).
Qed.

(** X21: the question for the number of players is asked again until a line
    is an integer above 0.  Lines that are no integer or are 0 or less are
    each answered by one complaint and a new prompt; the first line that is
    an integer above 0 is accepted, the loop returns that number and leaves
    the lines after it unread.  While no such line has been typed the loop
    waits.  No input makes the loop raise. *)
Theorem read_num_players_first_valid
    (bad : list string) (shown : list console_line) :
  Forall (turned_down py_int) bad →
  (∀ s rest n,
     py_int s = Some n → 0 < n →
     read_num_players py_int (bad ++ s :: rest) shown
     = (Ok n, (rest, shown ++ complaints py_int bad ++ [PromptNumPlayers]))) ∧
  read_num_players py_int bad shown
    = (Pending, ([], shown ++ complaints py_int bad ++ [PromptNumPlayers])) ∧
  (∀ stdin e c', read_num_players py_int stdin shown ≠ (Raise e, c')) ∧
  (∀ stdin n c',
     read_num_players py_int stdin shown = (Ok n, c') →
     0 < n ∧
     ∃ bad' s,
       stdin = bad' ++ s :: c'.1 ∧ py_int s = Some n ∧
       Forall (turned_down py_int) bad').
Proof.
  intros Hbad. split_and!.
  - intros s rest n Hs Hn. by apply read_num_players_accepts.
  - by apply read_num_players_waits.
  - intros stdin. apply read_num_players_no_raise.
  - intros stdin n c' Hrun.
    destruct (read_num_players_Ok stdin shown n c' Hrun)
      as (Hn & bad' & s & Hin & Hs & Hbad' & _).
    split; [done|]. by exists bad', s.
Qed.

Lemma setup_spec (c : Console) :
  (∀ e, (setup py_int strip_lower c).1.1 ≠ Raise e) ∧
  (∀ n, (setup py_int strip_lower c).1.1 = Ok n →
     0 < n ∧
     Z.of_nat (length (players (game (setup py_int strip_lower c).2))) = n ∧
     registered (setup py_int strip_lower c).2 ∧
     round (game (setup py_int strip_lower c).2) = 1 ∧
     ∀ l, l ∈ players (game (setup py_int strip_lower c).2) →
          score (heap (setup py_int strip_lower c).2 !!! l) = 0).
Proof.
  unfold setup.
  destruct (read_num_players py_int c.1 c.2) as [[n|e|] c1] eqn:Hn.
  - destruct (read_num_players_Ok _ _ _ _ Hn) as [Hpos _].
    destruct (collect_players strip_lower (py_range 0 n) c1 new_world)
      as [[r c2] w] eqn:Hrun.
    destruct (collect_players_spec _ _ _ _ _ _ new_world_fresh_game Hrun)
      as [Hne Hok].
    destruct r as [[]|e|]; cbn.
    + split; [done|]. intros n' [= <-].
      destruct (Hok eq_refl) as [(Hreg & Hround & Hzero) Hlen].
      split_and!; try done.
      rewrite Hlen. unfold py_range. rewrite length_fmap, length_seq. simpl. lia.
    + by destruct (Hne e).
    + by split.
  - by apply read_num_players_no_raise in Hn.
  - by split.
Qed.

(** X22: the setup dialogue never raises.  When it completes, exactly
    [num_players] players are registered, at least one, each a distinct
    object with score 0 (no name that was typed is dropped, because only
    "child" and "adult" ever reach [add_player]), and the round is 1. *)
Theorem setup_registers_players (c : Console) :
  (∀ e, (setup py_int strip_lower c).1.1 ≠ Raise e) ∧
  (∀ n, (setup py_int strip_lower c).1.1 = Ok n →
     0 < n ∧
     Z.of_nat (length (players (game (setup py_int strip_lower c).2))) = n ∧
     registered (setup py_int strip_lower c).2 ∧
     round (game (setup py_int strip_lower c).2) = 1 ∧
     ∀ l, l ∈ players (game (setup py_int strip_lower c).2) →
          score (heap (setup py_int strip_lower c).2 !!! l) = 0).
Proof. apply setup_spec. Qed.
End SetupProofs.

Lemma setup_registers_players_witness :
  (setup sample_int id sample_console).1.1 = Ok 2 ∧
  0 < 2 ∧
  Z.of_nat (length (players (game (setup sample_int id sample_console).2))) = 2 ∧
  registered (setup sample_int id sample_console).2 ∧
  round (game (setup sample_int id sample_console).2) = 1 ∧
  ∀ l, l ∈ players (game (setup sample_int id sample_console).2) →
       score (heap (setup sample_int id sample_console).2 !!! l) = 0.
Proof.
  split; [reflexivity|].
  destruct (setup_registers_players sample_int id sample_console) as [_ Hok].
  exact (Hok 2 eq_refl).
Defined.

Lemma read_num_players_first_valid_witness :
  Forall (turned_down sample_int) ["two"; "0"] ∧
  sample_int "2" = Some 2 ∧ 0 < 2 ∧
  read_num_players sample_int (["two"; "0"] ++ "2" :: ["Alice"]) []
    = (Ok 2, (["Alice"],
              [] ++ complaints sample_int ["two"; "0"] ++ [PromptNumPlayers])) ∧
  complaints sample_int ["two"; "0"]
    = [PromptNumPlayers; SayNotInteger; PromptNumPlayers; SayNotPositive].
Proof.
  assert (Forall (turned_down sample_int) ["two"; "0"]) as Hbad.
  { repeat constructor; intros m Hm; vm_compute in Hm; [done|].
    injection Hm as <-. lia. }
  assert (0 < 2) as H2 by lia.
  split_and!; [exact Hbad|reflexivity|exact H2| |reflexivity].
  destruct (read_num_players_first_valid sample_int ["two"; "0"] [] Hbad)
    as [Haccept _].
  exact (Haccept "2" ["Alice"] 2 eq_refl H2).
Defined.

(** ** From the setup dialogue to the first question *)

Lemma ask_question_Ok (net : list fetch) :
  ∀ w rest, index_in_range w →
    (ask_question net w).1 = Ok rest →
    ∃ q, current_question (gui (ask_question net w).2) = Some q ∧
         option_vars (gui (ask_question net w).2) = Some 0.
Proof.
  induction net as [|f net IH]; intros w rest Hi; [done|].
  cbn [ask_question]. run.
  destruct (getitem _ _) as [l|e|]; cbn [fst snd]; [|done..].
  destruct (get_questions_cases (DEFAULT_DIFFICULTY (cls (heap w !!! l))) f w)
    as [[q ->]|[[line ->]|(e & -> & _)]]; cbn [fst snd]; [by eexists| |done].
  set (w1 := put_dialog _ _).
  assert (players (game w1) ≠ []) as Hne by by apply index_in_range_nonempty in Hi.
  rewrite (advance_run w1 Hne).
  apply IH. by apply advanced_in_range.
Qed.

Lemma init_gui_spec (net : list fetch) (w : World) :
  players (game w) ≠ [] →
  heap (init_gui net w).2 = heap w ∧
  players (game (init_gui net w).2) = players (game w) ∧
  index_in_range (init_gui net w).2 ∧
  (∀ rest, (init_gui net w).1 = Ok rest →
     ∃ q, current_question (gui (init_gui net w).2) = Some q ∧
          option_vars (gui (init_gui net w).2) = Some 0).
Proof.
  intros Hne. unfold init_gui, update_leaderboard. run.
  set (w0 := on_gui _ (on_gui _ (on_gui _ w))).
  assert (index_in_range w0) as Hi0.
  { unfold index_in_range. cbn. destruct (players (game w)); [done|simpl; lia]. }
  destruct (ask_question_keeps net w0 Hi0) as (Hh & Hps & _ & Hi).
  split_and!; [done..|].
  intros rest Hok. by eapply ask_question_Ok.
Qed.

Section MainProofs.
Context (py_int : string → option Z) (strip_lower : string → string).

(** X23: when the start-up (the dialogue, then the window) has completed,
    the game is ready for the first answer: at least one player is
    registered, as many as were asked for, all with score 0; the index
    points into the registry; a question is stored and nothing is selected. *)
Theorem main_starts_game (c : Console) (net rest : list fetch) :
  (main py_int strip_lower c net).1.1 = Ok rest →
  ∃ n q,
    (setup py_int strip_lower c).1.1 = Ok n ∧ 0 < n ∧
    Z.of_nat (length (players (game (main py_int strip_lower c net).2))) = n ∧
    registered (main py_int strip_lower c net).2 ∧
    (∀ l, l ∈ players (game (main py_int strip_lower c net).2) →
          score (heap (main py_int strip_lower c net).2 !!! l) = 0) ∧
    index_in_range (main py_int strip_lower c net).2 ∧
    current_question (gui (main py_int strip_lower c net).2) = Some q ∧
    option_vars (gui (main py_int strip_lower c net).2) = Some 0.
Proof.
  unfold main.
  destruct (setup_spec py_int strip_lower c) as [_ Hsetup].
  destruct (setup py_int strip_lower c) as [[[n|e|] c'] w]; cbn; [|done..].
  destruct (Hsetup n eq_refl) as (Hpos & Hlen & Hreg & _ & Hzero).
  assert (players (game w) ≠ []) as Hne.
  { intros Hnil. cbn in Hlen. rewrite Hnil in Hlen. simpl in Hlen. lia. }
  destruct (init_gui_spec net w Hne) as (Hh & Hps & Hi & Hq).
  intros Hok. destruct (Hq rest Hok) as (q & Hcq & Hov).
  exists n, q. cbn in *. split_and!; try done.
  - by rewrite Hps.
  - eapply registered_same_players; [exact Hps| |exact Hreg].
    intros l. by rewrite Hh.
  - intros l Hl. rewrite Hh. apply Hzero. by rewrite <- Hps.
Qed.
End MainProofs.

Lemma main_starts_game_witness :
  (main sample_int id sample_console [fetch_down; fetch_good]).1.1 = Ok [] ∧
  ∃ n q,
    (setup sample_int id sample_console).1.1 = Ok n ∧ 0 < n ∧
    Z.of_nat (length (players
      (game (main sample_int id sample_console [fetch_down; fetch_good]).2))) = n ∧
    registered (main sample_int id sample_console [fetch_down; fetch_good]).2 ∧
    (∀ l, l ∈ players
            (game (main sample_int id sample_console [fetch_down; fetch_good]).2) →
          score (heap (main sample_int id sample_console
                         [fetch_down; fetch_good]).2 !!! l) = 0) ∧
    index_in_range (main sample_int id sample_console [fetch_down; fetch_good]).2 ∧
    current_question
      (gui (main sample_int id sample_console [fetch_down; fetch_good]).2)
      = Some q ∧
    option_vars
      (gui (main sample_int id sample_console [fetch_down; fetch_good]).2)
      = Some 0.
Proof.
  split; [reflexivity|].
  exact (main_starts_game sample_int id sample_console
           [fetch_down; fetch_good] [] eq_refl).
Defined.

(** ** The turn scheduler: [advance] on its own *)

Lemma advance_step (w : World) :
  index_in_range w →
  advance w = (Ok (), advanced w) ∧ index_in_range (advanced w).
Proof.
  intros Hi. pose proof (index_in_range_nonempty w Hi) as Hne.
  split; [by apply advance_run|by apply advanced_in_range].
Qed.

Lemma advances_spec (k : nat) :
  ∀ w, index_in_range w →
    ∃ w', advances k w = (Ok (), w') ∧
      heap w' = heap w ∧
      players (game w') = players (game w) ∧
      round_player_index (gui w')
        = (round_player_index (gui w) + Z.of_nat k)
            `mod` Z.of_nat (length (players (game w))) ∧
      round (game w')
        = round (game w)
          + (round_player_index (gui w) + Z.of_nat k)
              `div` Z.of_nat (length (players (game w))).
Proof.
  induction k as [|k IH]; intros w Hi.
  - exists w. unfold index_in_range in Hi.
    rewrite Z.add_0_r, Z.mod_small, Z.div_small by done.
    split_and!; try done. lia.
  - destruct (advance_step w Hi) as [Hrun Hi1].
    destruct (advanced_fields w) as (Hh & Hps & Hidx & Hround).
    cbv zeta in Hidx, Hround.
    destruct (IH (advanced w) Hi1) as (w' & Hrun' & Hh' & Hps' & Hidx' & Hround').
    rewrite Hps in Hidx', Hround'. rewrite Hidx in Hidx', Hround'.
    rewrite Hround in Hround'.
    exists w'. split_and!.
    + cbn [advances]. unfold mbind at 1, M_bind at 1. by rewrite Hrun.
    + by rewrite Hh'.
    + by rewrite Hps'.
    + rewrite Hidx'. rewrite Zplus_mod_idemp_l. f_equal. lia.
    + rewrite Hround'. rewrite <- Z.add_assoc. f_equal.
      rewrite (wrap_count _ _ (Z.of_nat k)) by (done || lia).
      f_equal. lia.
Qed.

(** C2: for a registry of size N and a state whose index points into it,
    one turn advance (the index update that opens [next_player]; the call
    then goes on to ask the question in the state so reached) sets the index
    to [(index + 1) mod N] and adds one to the round exactly when the new
    index is 0, touching neither the registry nor a player.  So [N] advances
    bring the index back and add exactly 1 to the round, and with 3 players
    7 advances from index 0 and round 1 end at index 1 in round 3. *)
Theorem advance_round_robin (w : World) (k : nat) :
  let n := Z.of_nat (length (players (game w))) in
  let i := round_player_index (gui w) in
  0 ≤ i < n →
  ∃ w', advances k w = (Ok (), w') ∧
    heap w' = heap w ∧
    players (game w') = players (game w) ∧
    (k = 1%nat →
       advance w = (Ok (), w') ∧
       (∀ net, next_player net w = ask_question net w') ∧
       round_player_index (gui w') = (i + 1) `mod` n ∧
       round (game w')
         = round (game w)
           + (if decide (round_player_index (gui w') = 0) then 1 else 0)) ∧
    (Z.of_nat k = n →
       round_player_index (gui w') = i ∧ round (game w') = round (game w) + 1) ∧
    (n = 3 → i = 0 → round (game w) = 1 → k = 7%nat →
       round_player_index (gui w') = 1 ∧ round (game w') = 3).
Proof.
  intros n i Hi.
  destruct (advances_spec k w Hi) as (w' & Hrun & Hh & Hps & Hidx & Hround).
  fold n i in Hidx, Hround.
  exists w'. split_and!; [done..| | |].
  - intros ->. destruct (advance_step w Hi) as [Hadv _].
    assert (w' = advanced w) as ->.
    { cbn [advances] in Hrun. unfold mbind, M_bind, mret, M_ret in Hrun.
      rewrite Hadv in Hrun. by injection Hrun as <-. }
    destruct (advanced_fields w) as (_ & _ & Hidx1 & Hround1).
    cbv zeta in Hidx1, Hround1. fold n i in Hidx1, Hround1.
    split_and!; [done| |done|by rewrite Hidx1].
    intros net. unfold next_player. run. by rewrite Hadv.
  - intros Hk. rewrite Hk in Hidx, Hround. split.
    + rewrite Hidx. rewrite <- (Z.mul_1_l n) at 1.
      rewrite Z_mod_plus_full. by apply Z.mod_small.
    + rewrite Hround. f_equal. rewrite <- (Z.mul_1_l n) at 1.
      rewrite Z_div_plus_full by lia. by rewrite Z.div_small.
  - intros Hn Hi0 Hr ->. by rewrite Hidx, Hround, Hn, Hi0, Hr.
Qed.

Lemma advance_round_robin_witness :
  0 ≤ round_player_index (gui three_players)
    < Z.of_nat (length (players (game three_players))) ∧
  ∃ w', advances 7 three_players = (Ok (), w') ∧
        round_player_index (gui w') = 1 ∧ round (game w') = 3.
Proof.
  assert (0 ≤ round_player_index (gui three_players)
            < Z.of_nat (length (players (game three_players)))) as Hi
    by (vm_compute; split; [discriminate|reflexivity]).
  split; [exact Hi|].
  destruct (advance_round_robin three_players 7 Hi)
    as (w' & Hrun & _ & _ & _ & _ & Hscenario).
  exists w'. split; [exact Hrun|].
  apply Hscenario; reflexivity.
Defined.

(** ** Selections the window can hold *)

Lemma asked_selection_in_reach (q : Question) (l : nat) (w : World) :
  selection_in_reach (asked q l w).
Proof. exists q, 0. split_and!; [done..|lia|lia]. Qed.

Lemma ask_question_in_reach (net : list fetch) :
  ∀ w rest, index_in_range w →
    (ask_question net w).1 = Ok rest →
    selection_in_reach (ask_question net w).2.
Proof.
  induction net as [|f net IH]; intros w rest Hi; [done|].
  cbn [ask_question]. run.
  destruct (getitem _ _) as [l|e|]; cbn [fst snd]; [|done..].
  destruct (get_questions_cases (DEFAULT_DIFFICULTY (cls (heap w !!! l))) f w)
    as [[q ->]|[[line ->]|(e & -> & _)]]; cbn [fst snd]; [|  |done].
  { intros _. apply (asked_selection_in_reach q l w). }
  set (w1 := put_dialog _ _).
  assert (players (game w1) ≠ []) as Hne by by apply index_in_range_nonempty in Hi.
  rewrite (advance_run w1 Hne).
  apply IH. by apply advanced_in_range.
Qed.

Lemma click_button_in_reach (i : nat) (w : World) :
  selection_in_reach w → selection_in_reach (click_button i w).2.
Proof.
  intros (q & k & Hq & Hk & Hb & Hrange). unfold click_button, select_option. run.
  destruct (option_buttons (gui w) !! i) as [[o v]|] eqn:Hi; cbn.
  - rewrite Hb in Hi. apply buttons_lookup in Hi as [Ho ->].
    apply lookup_lt_Some in Ho.
    exists q, (Z.of_nat i + 1). cbn. split_and!; [done..|lia|lia].
  - by exists q, k.
Qed.

(** How a call of [submit_answer] can end. *)
Lemma submit_answer_outcomes (net : list fetch) (w : World) :
  (∃ r, submit_answer net w = (r, w) ∧ ∀ rest, r ≠ Ok rest) ∨
  submit_answer net w = (Ok net, put_dialog WarnSelectOption w) ∨
  ∃ w2, game w2 = game w ∧ gui w2 = gui w ∧
        submit_answer net w = after_scoring net w2.
Proof.
  destruct (getitem (players (game w)) (round_player_index (gui w)))
    as [l|e|] eqn:Hl.
  2,3: left; eexists; split; [unfold submit_answer; run; by rewrite Hl|done].
  destruct (option_vars (gui w)) as [k|] eqn:Hk.
  2:{ left. eexists. split; [|shelve]. unfold submit_answer. run. rewrite Hl.
      cbn [fst snd]. by rewrite Hk. Unshelve. done. }
  destruct (decide (k = 0)) as [->|Hk0].
  { right. left. by apply (submit_answer_rejects_aux w net l). }
  destruct (current_question (gui w)) as [q|] eqn:Hq.
  2:{ left. eexists. split; [|shelve]. unfold submit_answer. run. rewrite Hl.
      cbn [fst snd]. rewrite Hk. cbn [from_option].
      rewrite decide_False by done. by rewrite Hq. Unshelve. done. }
  destruct (getitem (options q) (k - 1)) as [chosen|e|] eqn:Hc.
  2,3: left; eexists; split;
       [unfold submit_answer; run; rewrite Hl; cbn [fst snd]; rewrite Hk;
        cbn [from_option]; rewrite decide_False by done; rewrite Hq;
        cbn [from_option]; by rewrite Hc|done].
  rewrite (submit_answer_nonzero w net l k q chosen) by done.
  destruct (py_eq chosen (correct_answer q)).
  - right. right. refine (ex_intro _ _ (conj _ (conj _ eq_refl))); done.
  - destruct (py_index _ _) as [idx|e|]; [|left; by eexists..].
    destruct (getitem (options q) idx) as [answer|e|]; [|left; by eexists..].
    right. right. refine (ex_intro _ _ (conj _ (conj _ eq_refl))); done.
Qed.

(** The selection stays one the window can hold: a new question starts at
    0, a click sets the value of an existing button, and a completed
    [submit_answer] either changed nothing or ends on a new question. *)
Lemma selection_stays_in_reach (w : World) (net rest : list fetch) (i : nat) :
  index_in_range w →
  ((ask_question net w).1 = Ok rest →
     selection_in_reach (ask_question net w).2) ∧
  (selection_in_reach w → selection_in_reach (click_button i w).2) ∧
  (selection_in_reach w → (submit_answer net w).1 = Ok rest →
     selection_in_reach (submit_answer net w).2).
Proof.
  intros Hi. split_and!.
  - by apply ask_question_in_reach.
  - apply click_button_in_reach.
  - intros Hsel.
    destruct (submit_answer_outcomes net w)
      as [(r & -> & Hr)|[->|(w2 & Hg & Hu & ->)]]; cbn.
    + intros ->. by destruct (Hr rest).
    + done.
    + assert (index_in_range w2) as Hi2
        by (unfold index_in_range; by rewrite Hg, Hu).
      pose proof (index_in_range_nonempty w2 Hi2) as Hne.
      unfold after_scoring, next_player, update_leaderboard. run.
      rewrite (advance_run w2 Hne).
      pose proof (ask_question_in_reach net (advanced w2) rest
                    (advanced_in_range w2 Hne)) as Hask.
      destruct (ask_question net (advanced w2)) as [[net'|e|] w3];
        cbn [fst snd] in *; [|done..].
      intros [= ->]. by apply Hask.
Qed.


